(** * Work distribution kernels of the alpaka computePi examples

    Shallow embedding of [computePi_homework/src/computePi.cpp] and
    [computePi_lesson24/src/computePi.cpp]: the point classifier
    [processPoint], the four work-distribution kernels, the lesson kernel
    [PixelFinderKernel] and the host-side reduction of [main].

    Indices are [uint32_t] in the source: they are integers in
    [0, 2^32) here and every addition and multiplication is reduced modulo
    [2^32].  [float] is IEEE-754 binary32, taken from the executable
    specification of the Standard Library ([SpecFloat] at precision 24 and
    maximal exponent 128). *)

From Stdlib Require Import ZArith Lia Bool.
From Stdlib Require Import Floats.SpecFloat.
From stdpp Require Import base tactics option list numbers.

Local Open Scope Z_scope.

(** ** [uint32_t] arithmetic *)

Module U32.

Definition modulus : Z := 2 ^ 32.

Definition wrap (z : Z) : Z := z mod modulus.

Definition add (a b : Z) : Z := wrap (a + b).

Definition mul (a b : Z) : Z := wrap (a * b).

Definition in_range (z : Z) : Prop := 0 <= z < modulus.

End U32.

(** ** Outcome of running a piece of device or host code

    [OutOfFuel] carries the state reached when the iteration budget of the
    model ran out (the source loop would go on); [Fault] is an access
    outside a buffer, which is undefined behaviour in the source. *)

Inductive result (St : Type) : Type :=
| Done (s : St)
| OutOfFuel (s : St)
| Fault.

Arguments Done {St} s.
Arguments OutOfFuel {St} s.
Arguments Fault {St}.

(** The state carried by a result that has one. *)
Definition state_of {St : Type} (r : result St) : option St :=
  match r with
  | Done s | OutOfFuel s => Some s
  | Fault => None
  end.

(** ** The C++ [for] statement

    [for (idx = init; cond idx; idx = step idx) body idx].  [fuel] bounds
    the number of times the body may run. *)

Fixpoint for_loop {St : Type} (fuel : nat) (cond : Z -> bool) (step : Z -> Z)
    (body : Z -> St -> result St) (idx : Z) (s : St) : result St :=
  if cond idx then
    match fuel with
    | O => OutOfFuel s
    | S fuel' =>
        match body idx s with
        | Done s' => for_loop fuel' cond step body (step idx) s'
        | OutOfFuel s' => OutOfFuel s'
        | Fault => Fault
        end
    end
  else Done s.

(** ** The accelerator handle

    What the kernels read from [acc]: [idx::getIdx<Grid, Threads>(acc)[0]],
    [workdiv::getWorkDiv<Grid, Threads>(acc)[0]] and
    [workdiv::getWorkDiv<Thread, Elems>(acc)[0]], each a [uint32_t]. *)

Record Acc : Type := mkAcc {
  getIdx_Grid_Threads : Z;
  getWorkDiv_Grid_Threads : Z;
  getWorkDiv_Thread_Elems : Z
}.

(** A worker of a launch: 32-bit values, the index below the extent. *)
Definition valid_acc (acc : Acc) : Prop :=
  U32.in_range (getIdx_Grid_Threads acc) /\
  U32.in_range (getWorkDiv_Grid_Threads acc) /\
  U32.in_range (getWorkDiv_Thread_Elems acc) /\
  getIdx_Grid_Threads acc < getWorkDiv_Grid_Threads acc.

(** ** The four kernels, over an arbitrary per-point procedure

    [process idx s] stands for the call [processPoint(acc, points, r, idx)]
    acting on the state [s]; the kernels below are the bodies of the four
    [operator()] of the homework, in source order. *)

Section Kernels.

Context {St : Type}.
Variable process : Z -> St -> result St.

Definition PixelFinderKernelOnePointPerThreadSimplified
    (acc : Acc) (s : St) : result St :=
  let gridThreadIdx := getIdx_Grid_Threads acc in
  process gridThreadIdx s.

Definition PixelFinderKernelOnePointPerThread
    (acc : Acc) (n : Z) (s : St) : result St :=
  let gridThreadIdx := getIdx_Grid_Threads acc in
  if gridThreadIdx <? n then process gridThreadIdx s else Done s.

Definition PixelFinderKernelMultiplePointsPerThread
    (fuel : nat) (acc : Acc) (n : Z) (s : St) : result St :=
  let gridThreadIdx := getIdx_Grid_Threads acc in
  let gridThreadExtent := getWorkDiv_Grid_Threads acc in
  for_loop fuel
    (fun idx => idx <? n)
    (fun idx => U32.add idx gridThreadExtent)
    (fun idx s => process idx s)
    gridThreadIdx s.

(** [fuel] bounds the outer loop, [fuel_in] each run of the inner loop. *)
Definition PixelFinderKernelMultiplePointsPerThreadElements
    (fuel fuel_in : nat) (acc : Acc) (n : Z) (s : St) : result St :=
  let gridThreadIdx := getIdx_Grid_Threads acc in
  let gridThreadExtent := getWorkDiv_Grid_Threads acc in
  let threadElementExtent := getWorkDiv_Thread_Elems acc in
  for_loop fuel
    (fun idx => idx <? n)
    (fun idx => U32.add idx (U32.mul gridThreadExtent threadElementExtent))
    (fun idx s =>
       for_loop fuel_in
         (fun i => (i <? U32.add idx threadElementExtent) && (i <? n))
         (fun i => U32.add i 1)
         (fun i s => process i s)
         idx s)
    (U32.mul gridThreadIdx threadElementExtent) s.

End Kernels.

(** ** The indices a worker hands to [processPoint]

    The kernels run on a log of the calls: [log_call idx] records the
    call [processPoint(acc, points, r, idx)] and does nothing else. *)

Definition log_call (idx : Z) (calls : list Z) : result (list Z) :=
  Done (calls ++ [idx]).

Definition Exact_calls (acc : Acc) : result (list Z) :=
  PixelFinderKernelOnePointPerThreadSimplified log_call acc [].

Definition Bounded_calls (acc : Acc) (n : Z) : result (list Z) :=
  PixelFinderKernelOnePointPerThread log_call acc n [].

Definition Strided_calls (fuel : nat) (acc : Acc) (n : Z) : result (list Z) :=
  PixelFinderKernelMultiplePointsPerThread log_call fuel acc n [].

Definition StridedBlocked_calls (fuel fuel_in : nat) (acc : Acc) (n : Z)
    : result (list Z) :=
  PixelFinderKernelMultiplePointsPerThreadElements log_call fuel fuel_in acc n [].

(** ** [float]: IEEE-754 binary32 *)

Module F32.

Definition prec : Z := 24.
Definition emax : Z := 128.

Definition float : Type := spec_float.

Definition valid (f : float) : bool := valid_binary prec emax f.

Definition mul : float -> float -> float := SFmul prec emax.
Definition add : float -> float -> float := SFadd prec emax.
Definition div : float -> float -> float := SFdiv prec emax.
Definition sqrt : float -> float := SFsqrt prec emax.
Definition leb : float -> float -> bool := SFleb.

(** The binary32 value nearest to [m * 2^e] (ties to even). *)
Definition lit (m e : Z) : float := binary_normalize prec emax m e false.

(** Conversion of an unsigned integer to [float]. *)
Definition of_uint32 (z : Z) : float := lit z 0.

Definition is_nan (f : float) : bool :=
  match f with S754_nan => true | _ => false end.

End F32.

(** ** The point buffers

    [struct Points { float * x; float * y; bool * inside; }]: three
    separately allocated buffers. *)

Record Points : Type := mkPoints {
  x : list F32.float;
  y : list F32.float;
  inside : list bool
}.

(** The distance the classifier compares with the radius. *)
Definition distance (px py : F32.float) : F32.float :=
  F32.sqrt (F32.add (F32.mul px px) (F32.mul py py)).

(** [processPoint(acc, points, r, idx)]. *)
Definition processPoint (points : Points) (r : F32.float) (idx : Z)
    : result Points :=
  match x points !! Z.to_nat idx, y points !! Z.to_nat idx with
  | Some px, Some py =>
      let d := distance px py in
      let isInside := F32.leb d r in
      if decide (Z.to_nat idx < length (inside points))%nat then
        Done {| x := x points; y := y points;
                inside := <[Z.to_nat idx := isInside]> (inside points) |}
      else Fault
  | _, _ => Fault
  end.

(** The classifier as a kernel body on the device buffers. *)
Definition classify (r : F32.float) (idx : Z) (pts : Points) : result Points :=
  processPoint pts r idx.

(** [PixelFinderKernel] of lessons 24 and 25, which inlines the classifier. *)
Definition PixelFinderKernel (acc : Acc) (points : Points) (r : F32.float)
    : result Points :=
  let gridThreadIdx := getIdx_Grid_Threads acc in
  match x points !! Z.to_nat gridThreadIdx, y points !! Z.to_nat gridThreadIdx with
  | Some px, Some py =>
      let d := F32.sqrt (F32.add (F32.mul px px) (F32.mul py py)) in
      let isInside := F32.leb d r in
      if decide (Z.to_nat gridThreadIdx < length (inside points))%nat then
        Done {| x := x points; y := y points;
                inside := <[Z.to_nat gridThreadIdx := isInside]> (inside points) |}
      else Fault
  | _, _ => Fault
  end.

(** ** Kernel launch

    The kernel body runs once per worker; the workers of a schedule run
    one after the other on the shared device state. *)

Fixpoint launch {St : Type} (kernel : Acc -> St -> result St)
    (workers : list Acc) (s : St) : result St :=
  match workers with
  | [] => Done s
  | acc :: rest =>
      match kernel acc s with
      | Done s' => launch kernel rest s'
      | OutOfFuel s' => OutOfFuel s'
      | Fault => Fault
      end
  end.

(** The workers of a one-dimensional work division, by grid index. *)
Definition grid (gridThreadExtent threadElementExtent : Z) : list Acc :=
  (fun i => mkAcc i gridThreadExtent threadElementExtent)
    <$> seqZ 0 gridThreadExtent.

(** ** Host side of [main]: the reduction and the estimate *)

(** [uint32_t P = 0; for (uint32_t i = 0; i < n; ++i) if (inside[i]) ++P;] *)
Definition count_inside (fuel : nat) (flags : list bool) (n : Z) : result Z :=
  for_loop fuel
    (fun i => i <? n)
    (fun i => U32.add i 1)
    (fun (i P : Z) =>
       match flags !! Z.to_nat i with
       | Some b => Done (if b : bool then U32.add P 1 else P)
       | None => Fault
       end)
    0 0.

(** [float pi = 4.f * P / n;] *)
Definition estimate (P n : Z) : F32.float :=
  F32.div (F32.mul (F32.lit 4 0) (F32.of_uint32 P)) (F32.of_uint32 n).

(** Lines 236-243 of the homework: count, then estimate. *)
Definition compute_pi_on_host (fuel : nat) (flags : list bool) (n : Z)
    : result F32.float :=
  match count_inside fuel flags n with
  | Done P => Done (estimate P n)
  | OutOfFuel P => OutOfFuel (estimate P n)
  | Fault => Fault
  end.

(** The device part and the host part of [main] for [n] points of radius
    [r], the sampler replaced by the given coordinates and the
    uninitialised flag buffer by [flags0]: the work division is
    [blocksPerGrid = n], [threadsPerBlock = 1], [elementsPerThread = 1]
    and the kernel is [PixelFinderKernelOnePointPerThreadSimplified], which
    has no loop: a launch that does not finish has faulted. *)
Definition main_pipeline (fuel : nat) (n : Z) (r : F32.float)
    (xs ys : list F32.float) (flags0 : list bool) : result F32.float :=
  let pointsAcc := mkPoints xs ys flags0 in
  let blocksPerGrid := n in
  let threadsPerBlock := 1 in
  let elementsPerThread := 1 in
  match launch
          (PixelFinderKernelOnePointPerThreadSimplified (classify r))
          (grid (U32.mul blocksPerGrid threadsPerBlock) elementsPerThread)
          pointsAcc with
  | Done pts => compute_pi_on_host fuel (inside pts) n
  | OutOfFuel _ | Fault => Fault
  end.

(** ** Index sequences, as the specification describes them *)

(** Running a per-position procedure over a list of positions, in order. *)
Fixpoint run_seq {St : Type} (body : Z -> St -> result St)
    (positions : list Z) (s : St) : result St :=
  match positions with
  | [] => Done s
  | p :: rest =>
      match body p s with
      | Done s' => run_seq body rest s'
      | OutOfFuel s' => OutOfFuel s'
      | Fault => Fault
      end
  end.

(** [start, start + stride, start + 2 stride, ...], [c] values. *)
Fixpoint stride_seq (start stride : Z) (c : nat) : list Z :=
  match c with
  | O => []
  | S c' => start :: stride_seq (start + stride) stride c'
  end.

(** The contiguous run of [k] indices from [p], cut at [n]. *)
Definition run_of (n k p : Z) : list Z := seqZ p (Z.min k (n - p)).

(** The runs at the positions [start, start + stride, ...], one after the
    other. *)
Definition blocked_seq (n k start stride : Z) (c : nat) : list Z :=
  concat (run_of n k <$> stride_seq start stride c).

(** What the inner loop of the StridedBlocked kernel visits from the outer
    position [p]: the indices from [p] on that are below [n] and below the
    32-bit sum [p + k]. *)
Definition inner_run (n k p : Z) : list Z :=
  seqZ p (Z.min (U32.add p k) n - p).

(** The number of positions [start + q * stride] below [n]:
    [ceil ((n - start) / stride)]. *)
Definition iterations (n stride start : Z) : nat :=
  Z.to_nat ((n - start + stride - 1) / stride).

(** [ceil (n / stride)]. *)
Definition ceil_div (n stride : Z) : Z := (n + stride - 1) / stride.

(** The sequence of worker [i] under the Strided policy:
    [i, i + T, i + 2 T, ...] up to the first value that is not below [n]. *)
Definition Strided_spec (n T i : Z) : list Z :=
  stride_seq i T (iterations n T i).

(** The sequence of worker [i] under the StridedBlocked policy: runs of
    [k] indices at [i k, i k + T k, i k + 2 T k, ...] while below [n]. *)
Definition StridedBlocked_spec (n T k i : Z) : list Z :=
  blocked_seq n k (i * k) (T * k) (iterations n (T * k) (i * k)).

(** ** Properties of a work distribution *)

(** The per-worker index lists [calls 0 .. calls (T - 1)] partition
    [0, n): no worker repeats an index, every index handed out is in
    range, every index in range is handed out, and to one worker only. *)
Definition partition_of (n T : Z) (calls : Z -> list Z) : Prop :=
  (forall i, 0 <= i < T -> NoDup (calls i)) /\
  (forall i j, 0 <= i < T -> j ∈ calls i -> 0 <= j < n) /\
  (forall j, 0 <= j < n -> exists i, 0 <= i < T /\ j ∈ calls i) /\
  (forall i i' j, 0 <= i < T -> 0 <= i' < T ->
     j ∈ calls i -> j ∈ calls i' -> i = i').

(** Every worker of the Strided kernel finishes, and the indices the
    workers processed partition [0, n). *)
Definition Strided_partitions (n T k : Z) : Prop :=
  exists calls : Z -> list Z,
    (forall i, 0 <= i < T ->
       exists fuel, Strided_calls fuel (mkAcc i T k) n = Done (calls i)) /\
    partition_of n T calls.

(** The same for the StridedBlocked kernel. *)
Definition StridedBlocked_partitions (n T k : Z) : Prop :=
  exists calls : Z -> list Z,
    (forall i, 0 <= i < T ->
       exists fuel fuel_in,
         StridedBlocked_calls fuel fuel_in (mkAcc i T k) n = Done (calls i)) /\
    partition_of n T calls.

(** Worker [i] of the Strided kernel processes [i, i + T, ...] in that
    order and stops at the first value that is not below [n]. *)
Definition Strided_sequence (n T k i : Z) : Prop :=
  exists (fuel c : nat),
    Strided_calls fuel (mkAcc i T k) n = Done (stride_seq i T c) /\
    (forall q, 0 <= q < Z.of_nat c -> i + q * T < n) /\
    n <= i + Z.of_nat c * T.

(** Worker [i] of the StridedBlocked kernel processes runs of [k]
    contiguous indices, the run at [i k + q T k] for [q = 0, 1, ...] while
    that position is below [n], each run cut at [n]. *)
Definition StridedBlocked_runs (n T k i : Z) : Prop :=
  exists (fuel fuel_in c : nat),
    StridedBlocked_calls fuel fuel_in (mkAcc i T k) n
      = Done (blocked_seq n k (i * k) (T * k) c) /\
    (forall q, 0 <= q < Z.of_nat c -> i * k + q * (T * k) < n) /\
    n <= i * k + Z.of_nat c * (T * k).

(** The property of C4 in the words of the specification, on a call log:
    the log is made of contiguous runs, each of [k] indices, except that
    the last run may be cut at [n].  Nothing is asked of the positions of
    the runs. *)
Definition contiguous_runs (n k : Z) (log : list Z) : Prop :=
  exists ps : list Z,
    log = concat (run_of n k <$> ps) /\
    (forall p, p ∈ ps -> 0 <= p < n) /\
    (forall (j : nat) p,
       ps !! j = Some p -> (S j < length ps)%nat -> p + k <= n).

(** Worker [i] of the StridedBlocked kernel finishes, and what it
    processed is made of contiguous runs of [k] indices, the last one
    possibly cut at [n]. *)
Definition StridedBlocked_visits_runs (n T k i : Z) : Prop :=
  exists (fuel fuel_in : nat) (log : list Z),
    StridedBlocked_calls fuel fuel_in (mkAcc i T k) n = Done log /\
    contiguous_runs n k log.

(** Worker [i] visits its own index and nothing else under the Exact,
    the Bounded and the Strided kernel. *)
Definition own_index_only (n T k i : Z) : Prop :=
  Exact_calls (mkAcc i T k) = Done [i] /\
  Bounded_calls (mkAcc i T k) n = Done [i] /\
  exists fuel, Strided_calls fuel (mkAcc i T k) n = Done [i].

(** All the indices of a call log are flat indices below [n]. *)
Definition calls_below (n : Z) (r : result (list Z)) : Prop :=
  forall calls, state_of r = Some calls -> forall j, j ∈ calls -> 0 <= j < n.

(** A kernel body that is a total procedure: it returns on every input. *)
Definition total_process {St : Type} (process : Z -> St -> result St) : Prop :=
  forall idx s, exists s', process idx s = Done s'.

(** The frame of a device run from [pts0]: coordinates untouched, the flag
    buffer of the same length and changed at most at the indices of
    [calls]. *)
Definition frame (pts0 : Points) (calls : list Z) (pts : Points) : Prop :=
  x pts = x pts0 /\ y pts = y pts0 /\
  length (inside pts) = length (inside pts0) /\
  forall j : nat, Z.of_nat j ∉ calls -> inside pts !! j = inside pts0 !! j.

(** The three buffers hold at least [n] elements each. *)
Definition buffers_hold (n : Z) (pts : Points) : Prop :=
  n <= Z.of_nat (length (x pts)) /\ n <= Z.of_nat (length (y pts)) /\
  n <= Z.of_nat (length (inside pts)).

(** Two outcomes that agree in kind, their states related by [R]; a faulting
    left run is related to everything. *)
Definition result_rel {A B : Type} (R : A -> B -> Prop)
    (ra : result A) (rb : result B) : Prop :=
  match ra, rb with
  | Done a, Done b => R a b
  | OutOfFuel a, OutOfFuel b => R a b
  | Fault, _ => True
  | _, _ => False
  end.

(** The frame of a launch: when the launch of [Kmem] on the buffers [pts0]
    does not fault, the launch of the same kernel on the call log ends the
    same way, and the buffers it leaves differ from [pts0] at most in the
    flags of the logged indices. *)
Definition launch_frame (Kmem : Acc -> Points -> result Points)
    (Klog : Acc -> list Z -> result (list Z)) (workers : list Acc)
    (pts0 : Points) : Prop :=
  result_rel (fun pts calls => frame pts0 calls pts)
    (launch Kmem workers pts0) (launch Klog workers []).

(** The number of [true] flags. *)
Definition count_true (flags : list bool) : Z :=
  Z.of_nat (length (filter (fun b => b = true) flags)).

(** ** What a launch leaves in the buffers *)

(** The flag the classifier computes for the point [j] of [pts0]. *)
Definition flag_of (r : F32.float) (pts0 : Points) (j : nat) : option bool :=
  match x pts0 !! j, y pts0 !! j with
  | Some px, Some py => Some (F32.leb (distance px py) r)
  | _, _ => None
  end.

(** The flags of all the points of two coordinate buffers. *)
Definition flags_of (r : F32.float) (xs ys : list F32.float) : list bool :=
  zip_with (fun px py => F32.leb (distance px py) r) xs ys.

(** The buffers [pts0] with the first [n] points classified: coordinates
    as they were, the first [n] flags computed, the other flags as they
    were. *)
Definition classified (r : F32.float) (n : Z) (pts0 : Points) : Points :=
  {| x := x pts0; y := y pts0;
     inside := take (Z.to_nat n) (flags_of r (x pts0) (y pts0))
               ++ drop (Z.to_nat n) (inside pts0) |}.

(** The state of the buffers after the classifier ran at the indices
    [calls], in any order and any number of times, from [pts0]. *)
Definition processed (r : F32.float) (pts0 : Points) (calls : list Z)
    (pts : Points) : Prop :=
  x pts = x pts0 /\ y pts = y pts0 /\
  length (inside pts) = length (inside pts0) /\
  forall j : nat,
    (Z.of_nat j ∈ calls -> inside pts !! j = flag_of r pts0 j) /\
    (Z.of_nat j ∉ calls -> inside pts !! j = inside pts0 !! j).

(** A float that is a non-negative number: [+0], a positive finite
    number or [+inf]; not NaN, not negative, not [-0]. *)
Definition is_nonneg (f : F32.float) : bool :=
  match f with
  | S754_zero false | S754_infinity false | S754_finite false _ _ => true
  | _ => false
  end.

(** The length of the shortest of the three buffers. *)
Definition shortest (pts : Points) : Z :=
  Z.of_nat
    (Nat.min (length (x pts)) (Nat.min (length (y pts)) (length (inside pts)))).

(** Linear arithmetic over 32-bit ranges. *)
Ltac u32 :=
  unfold valid_acc, U32.in_range in *; simpl in *;
  change U32.modulus with 4294967296 in *; lia.

(** * The kernels on small inputs *)

Example Strided_10_points_4_workers :
  Strided_calls 3 (mkAcc 1 4 1) 10 = Done [1; 5; 9].
Proof. reflexivity. Qed.

Example StridedBlocked_10_points_2_workers_3_elements :
  StridedBlocked_calls 2 3 (mkAcc 1 2 3) 10 = Done [3; 4; 5; 9].
Proof. reflexivity. Qed.

Example Strided_out_of_fuel :
  Strided_calls 2 (mkAcc 1 4 1) 10 = OutOfFuel [1; 5].
Proof. reflexivity. Qed.

Example Bounded_idle_worker : Bounded_calls (mkAcc 12 16 1) 10 = Done [].
Proof. reflexivity. Qed.

Example classify_reads_out_of_bounds :
  classify (F32.lit 1 0) 1 (mkPoints [F32.lit 0 0] [F32.lit 0 0] [false])
  = Fault.
Proof. reflexivity. Qed.

(** * Facts about 32-bit arithmetic *)

Lemma U32_modulus_eq : U32.modulus = 4294967296.
Proof. reflexivity. Qed.

Lemma U32_add_range a b : U32.in_range (U32.add a b).
Proof. unfold U32.in_range, U32.add, U32.wrap. apply Z.mod_pos_bound. reflexivity. Qed.

Lemma U32_mul_range a b : U32.in_range (U32.mul a b).
Proof. unfold U32.in_range, U32.mul, U32.wrap. apply Z.mod_pos_bound. reflexivity. Qed.

Lemma U32_add_small a b : 0 <= a + b < U32.modulus -> U32.add a b = a + b.
Proof. intros H. unfold U32.add, U32.wrap. by apply Z.mod_small. Qed.

Lemma U32_mul_small a b : 0 <= a * b < U32.modulus -> U32.mul a b = a * b.
Proof. intros H. unfold U32.mul, U32.wrap. by apply Z.mod_small. Qed.

Lemma U32_mul_1_r a : U32.in_range a -> U32.mul a 1 = a.
Proof. intros H. rewrite U32_mul_small; unfold U32.in_range in H; lia. Qed.

(** * Facts about the [for] statement *)

Section LoopFacts.

Context {St : Type}.
Implicit Types (cond : Z -> bool) (step : Z -> Z) (body : Z -> St -> result St).

Lemma for_loop_exit fuel cond step body idx s :
  cond idx = false -> for_loop fuel cond step body idx s = Done s.
Proof. intros H. destruct fuel; simpl; by rewrite H. Qed.

Lemma for_loop_no_fuel cond step body idx s :
  cond idx = true -> for_loop 0 cond step body idx s = OutOfFuel s.
Proof. intros H. simpl. by rewrite H. Qed.

Lemma for_loop_step fuel cond step body idx s :
  cond idx = true ->
  for_loop (S fuel) cond step body idx s =
    match body idx s with
    | Done s' => for_loop fuel cond step body (step idx) s'
    | OutOfFuel s' => OutOfFuel s'
    | Fault => Fault
    end.
Proof. intros H. simpl. by rewrite H. Qed.

(** A loop that finished keeps its result when given more fuel, also when
    the body is replaced by one that finishes wherever the first did. *)
Lemma for_loop_fuel_mono cond step body body' :
  (forall idx s s', body idx s = Done s' -> body' idx s = Done s') ->
  forall fuel fuel' idx s s',
    for_loop fuel cond step body idx s = Done s' ->
    (fuel <= fuel')%nat ->
    for_loop fuel' cond step body' idx s = Done s'.
Proof.
  intros Hb fuel. induction fuel as [|fuel IH]; intros fuel' idx s s' Hrun Hle.
  - destruct (cond idx) eqn:Hc.
    + by rewrite for_loop_no_fuel in Hrun.
    + rewrite for_loop_exit in Hrun by done. by rewrite for_loop_exit.
  - destruct (cond idx) eqn:Hc.
    + destruct fuel' as [|fuel']; [lia|].
      rewrite for_loop_step in Hrun by done. rewrite for_loop_step by done.
      destruct (body idx s) as [s1|s1|] eqn:Hbody; try done.
      rewrite (Hb _ _ _ Hbody). apply IH; [done|lia].
    + rewrite for_loop_exit in Hrun by done. by rewrite for_loop_exit.
Qed.

(** Loop invariants: [P] holds of the loop variable and the state at
    every test of the condition, [Q] of every state the loop can stop in. *)
Lemma for_loop_inv (P : Z -> St -> Prop) (Q : St -> Prop) cond step body :
  (forall idx s, P idx s -> Q s) ->
  (forall idx s s', P idx s -> cond idx = true ->
     body idx s = Done s' -> P (step idx) s') ->
  (forall idx s s', P idx s -> cond idx = true ->
     body idx s = OutOfFuel s' -> Q s') ->
  forall fuel idx s s',
    P idx s ->
    state_of (for_loop fuel cond step body idx s) = Some s' -> Q s'.
Proof.
  intros HQ Hstep Hout fuel.
  induction fuel as [|fuel IH]; intros idx s s' HP Hrun.
  - destruct (cond idx) eqn:Hc.
    + rewrite for_loop_no_fuel in Hrun by done. simpl in Hrun.
      inversion Hrun; subst. eauto.
    + rewrite for_loop_exit in Hrun by done. simpl in Hrun.
      inversion Hrun; subst. eauto.
  - destruct (cond idx) eqn:Hc.
    + rewrite for_loop_step in Hrun by done.
      destruct (body idx s) as [s1|s1|] eqn:Hbody.
      * eapply IH; [|exact Hrun]. eauto.
      * simpl in Hrun. inversion Hrun; subst. eauto.
      * done.
    + rewrite for_loop_exit in Hrun by done. simpl in Hrun.
      inversion Hrun; subst. eauto.
Qed.

(** A strided loop below [n] whose additions do not wrap runs its body at
    [idx, idx + stride, ...], [c] times. *)
Lemma for_loop_stride_seq (n stride : Z) body :
  forall (c fuel : nat) idx s,
    (c <= fuel)%nat ->
    0 <= idx -> 0 <= stride ->
    (forall q, 0 <= q < Z.of_nat c -> idx + q * stride < n) ->
    n <= idx + Z.of_nat c * stride ->
    idx + Z.of_nat c * stride < U32.modulus ->
    for_loop fuel (fun idx => idx <? n) (fun idx => U32.add idx stride)
      body idx s
    = run_seq body (stride_seq idx stride c) s.
Proof.
  induction c as [|c IH]; intros fuel idx s Hfuel Hidx Hstride Hlt Hge Hwrap.
  - simpl. apply for_loop_exit. apply Z.ltb_ge. lia.
  - destruct fuel as [|fuel]; [lia|].
    rewrite for_loop_step by (apply Z.ltb_lt; specialize (Hlt 0); lia).
    simpl. destruct (body idx s) as [s1|s1|]; try done.
    rewrite U32_add_small by nia.
    apply IH; try lia.
    + intros q Hq. specialize (Hlt (q + 1)). nia.
Qed.

End LoopFacts.

(** * Facts about index sequences *)

Section RunSeq.

Context {St : Type}.
Implicit Types (body : Z -> St -> result St).

Lemma run_seq_app body l1 l2 s :
  run_seq body (l1 ++ l2) s =
    match run_seq body l1 s with
    | Done s' => run_seq body l2 s'
    | OutOfFuel s' => OutOfFuel s'
    | Fault => Fault
    end.
Proof.
  revert s. induction l1 as [|p l1 IH]; intros s; simpl; [done|].
  destruct (body p s); auto.
Qed.

Lemma run_seq_ext body body' l s :
  (forall p s, p ∈ l -> body p s = body' p s) ->
  run_seq body l s = run_seq body' l s.
Proof.
  revert s. induction l as [|p l IH]; intros s H; simpl; [done|].
  rewrite <- H by left. destruct (body p s); auto.
  apply IH. intros q s' Hq. apply H. by right.
Qed.

(** Running the runs [f p] position by position is running their
    concatenation. *)
Lemma run_seq_concat body (f : Z -> list Z) l s :
  run_seq (fun p s => run_seq body (f p) s) l s
  = run_seq body (concat (f <$> l)) s.
Proof.
  revert s. induction l as [|p l IH]; intros s; simpl; [done|].
  rewrite run_seq_app. destruct (run_seq body (f p) s); auto.
Qed.

Lemma run_seq_total body l s :
  total_process body -> exists s', run_seq body l s = Done s'.
Proof.
  intros Ht. revert s. induction l as [|p l IH]; intros s; simpl; [eauto|].
  destruct (Ht p s) as [s1 ->]. apply IH.
Qed.

(** The inner loop of the blocked kernel: from [i] it runs the body at
    the consecutive indices below [hi] and [n]. *)
Lemma for_loop_run (n hi : Z) body :
  n < U32.modulus ->
  forall (c fuel : nat) i s,
    (c <= fuel)%nat ->
    0 <= i ->
    Z.of_nat c = Z.max 0 (Z.min hi n - i) ->
    for_loop fuel (fun i => (i <? hi) && (i <? n)) (fun i => U32.add i 1)
      body i s
    = run_seq body (seqZ i (Z.min hi n - i)) s.
Proof.
  intros Hn. induction c as [|c IH]; intros fuel i s Hfuel Hi Hc.
  - rewrite for_loop_exit.
    + unfold seqZ. replace (Z.to_nat (Z.min hi n - i)) with 0%nat by lia. done.
    + apply andb_false_iff. rewrite !Z.ltb_ge. lia.
  - destruct fuel as [|fuel]; [lia|].
    rewrite for_loop_step
      by (apply andb_true_iff; rewrite !Z.ltb_lt; lia).
    rewrite seqZ_cons by lia. simpl.
    destruct (body i s) as [s1|s1|]; try done.
    rewrite U32_add_small by lia.
    replace (Z.pred (Z.min hi n - i)) with (Z.min hi n - Z.succ i) by lia.
    replace (i + 1) with (Z.succ i) by lia.
    apply IH; lia.
Qed.

End RunSeq.

Lemma run_seq_log l calls : run_seq log_call l calls = Done (calls ++ l).
Proof.
  revert calls. induction l as [|p l IH]; intros calls; simpl.
  - by rewrite app_nil_r.
  - rewrite IH. by rewrite <- app_assoc.
Qed.

Lemma log_call_total : total_process log_call.
Proof. intros idx s. by eexists. Qed.

Lemma stride_seq_length start stride c : length (stride_seq start stride c) = c.
Proof. revert start. induction c; intros; simpl; auto. Qed.

Lemma elem_of_stride_seq start stride c j :
  j ∈ stride_seq start stride c <->
  exists q, 0 <= q < Z.of_nat c /\ j = start + q * stride.
Proof.
  revert start. induction c as [|c IH]; intros start; simpl.
  - split; [by intros ?%elem_of_nil | intros (q & ? & _); lia].
  - rewrite elem_of_cons, IH. split.
    + intros [-> | (q & Hq & ->)].
      * exists 0. lia.
      * exists (q + 1). lia.
    + intros (q & Hq & ->). destruct (decide (q = 0)) as [-> | Hne].
      * left. lia.
      * right. exists (q - 1). lia.
Qed.

Lemma NoDup_stride_seq start stride c :
  0 < stride -> NoDup (stride_seq start stride c).
Proof.
  intros Hs. revert start. induction c as [|c IH]; intros start; simpl.
  - constructor.
  - constructor; [|apply IH].
    rewrite elem_of_stride_seq. intros (q & Hq & Heq). nia.
Qed.

(** [iterations] counts the positions below [n]. *)
Lemma iterations_spec n stride start :
  0 < stride ->
  (forall q, 0 <= q < Z.of_nat (iterations n stride start) ->
     start + q * stride < n) /\
  n <= start + Z.of_nat (iterations n stride start) * stride.
Proof.
  intros Hs. unfold iterations.
  pose proof (Z.div_mod (n - start + stride - 1) stride ltac:(lia)) as Hdm.
  pose proof (Z.mod_pos_bound (n - start + stride - 1) stride Hs) as Hmod.
  set (m := (n - start + stride - 1) / stride) in *.
  destruct (decide (m <= 0)) as [Hm | Hm].
  - replace (Z.to_nat m) with 0%nat by lia. split; [lia | nia].
  - rewrite Z2Nat.id by lia. split; [intros q Hq; nia | nia].
Qed.

Lemma iterations_le_ceil n stride start :
  0 < stride -> 0 <= start ->
  Z.of_nat (iterations n stride start) <= Z.max 0 (ceil_div n stride).
Proof.
  intros Hs Hstart. unfold iterations, ceil_div.
  assert ((n - start + stride - 1) / stride <= (n + stride - 1) / stride)
    by (apply Z.div_le_mono; lia).
  lia.
Qed.

Lemma inner_run_no_wrap n k p :
  0 <= p -> 0 <= k -> p + k < U32.modulus -> inner_run n k p = run_of n k p.
Proof.
  intros Hp Hk Hw. unfold inner_run, run_of.
  rewrite U32_add_small by lia. f_equal. lia.
Qed.

Lemma blocked_seq_S n k start stride c :
  blocked_seq n k start stride (S c)
  = run_of n k start ++ blocked_seq n k (start + stride) stride c.
Proof. reflexivity. Qed.

Lemma elem_of_run_of n k p j : j ∈ run_of n k p <-> p <= j < p + k /\ j < n.
Proof. unfold run_of. rewrite elem_of_seqZ. lia. Qed.

Lemma elem_of_blocked_seq n k start stride c j :
  j ∈ blocked_seq n k start stride c <->
  exists q, 0 <= q < Z.of_nat c /\
            start + q * stride <= j < start + q * stride + k /\ j < n.
Proof.
  revert start. induction c as [|c IH]; intros start.
  - split; [by intros ?%elem_of_nil | intros (q & ? & _); lia].
  - rewrite blocked_seq_S, elem_of_app, IH, elem_of_run_of. split.
    + intros [H | (q & Hq & H)].
      * exists 0. lia.
      * exists (q + 1). lia.
    + intros (q & Hq & H). destruct (decide (q = 0)) as [-> | Hne].
      * left. lia.
      * right. exists (q - 1). lia.
Qed.

Lemma NoDup_blocked_seq n k start stride c :
  0 <= k <= stride -> NoDup (blocked_seq n k start stride c).
Proof.
  intros Hk. revert start. induction c as [|c IH]; intros start.
  - constructor.
  - rewrite blocked_seq_S. apply list.NoDup_app. split_and!.
    + apply NoDup_seqZ.
    + intros j Hj%elem_of_run_of (q & Hq & Hin)%elem_of_blocked_seq. nia.
    + apply IH.
Qed.

(** The Strided sequence of worker [i] is the residue class of [i] modulo
    [T] below [n]. *)
Lemma elem_of_Strided_spec n T i j :
  0 <= i < T ->
  j ∈ Strided_spec n T i <-> 0 <= j < n /\ j mod T = i.
Proof.
  intros Hi. unfold Strided_spec.
  destruct (iterations_spec n T i ltac:(lia)) as [Hlt Hge].
  rewrite elem_of_stride_seq. split.
  - intros (q & Hq & ->). split.
    + specialize (Hlt q Hq). nia.
    + rewrite Z.mod_add by lia. apply Z.mod_small. lia.
  - intros [Hj Hmod]. exists (j / T).
    pose proof (Z.div_mod j T ltac:(lia)) as Hdm.
    assert (0 <= j / T) by (apply Z.div_pos; lia).
    split; [|lia]. split; [done|].
    destruct (decide (j / T < Z.of_nat (iterations n T i))); [done|]. nia.
Qed.

(** The StridedBlocked sequence of worker [i] is made of the blocks of
    [k] indices whose number is [i] modulo [T]. *)
Lemma elem_of_StridedBlocked_spec n T k i j :
  0 <= i < T -> 0 < k ->
  j ∈ StridedBlocked_spec n T k i <-> 0 <= j < n /\ (j / k) mod T = i.
Proof.
  intros Hi Hk. unfold StridedBlocked_spec.
  destruct (iterations_spec n (T * k) (i * k) ltac:(nia)) as [Hlt Hge].
  rewrite elem_of_blocked_seq. split.
  - intros (q & Hq & Hin & Hn). split; [nia|].
    assert (j / k = i + q * T) as ->.
    { symmetry. apply (Z.div_unique_pos j k _ (j - (i + q * T) * k)); lia. }
    rewrite Z.mod_add by lia. apply Z.mod_small. lia.
  - intros [Hj Hmod].
    pose proof (Z.div_mod j k ltac:(lia)) as Hdm.
    pose proof (Z.mod_pos_bound j k Hk) as Hmk.
    pose proof (Z.div_mod (j / k) T ltac:(lia)) as Hdm2.
    assert (0 <= j / k) by (apply Z.div_pos; lia).
    assert (0 <= j / k / T) by (apply Z.div_pos; lia).
    exists (j / k / T). rewrite Hmod in Hdm2.
    assert (i * k + j / k / T * (T * k) = k * (j / k)) as Hpos.
    { rewrite Hdm2 at 2. ring. }
    split_and!; try lia.
    destruct (decide (j / k / T < Z.of_nat (iterations n (T * k) (i * k))))
      as [|Hge']; [done|].
    assert (i * k + Z.of_nat (iterations n (T * k) (i * k)) * (T * k)
            <= i * k + j / k / T * (T * k)); [|lia].
    apply Z.add_le_mono_l, Z.mul_le_mono_nonneg_r; nia.
Qed.

Lemma Strided_spec_partition n T :
  0 < T -> partition_of n T (Strided_spec n T).
Proof.
  intros HT. split_and!.
  - intros i Hi. by apply NoDup_stride_seq.
  - intros i j Hi Hj. by apply elem_of_Strided_spec in Hj as [? _].
  - intros j Hj. exists (j mod T). split; [by apply Z.mod_pos_bound|].
    apply elem_of_Strided_spec; [by apply Z.mod_pos_bound|done].
  - intros i i' j Hi Hi' H1 H2.
    apply elem_of_Strided_spec in H1 as [_ <-]; [|done].
    by apply elem_of_Strided_spec in H2 as [_ <-].
Qed.

Lemma StridedBlocked_spec_partition n T k :
  0 < T -> 0 < k -> partition_of n T (StridedBlocked_spec n T k).
Proof.
  intros HT Hk. split_and!.
  - intros i Hi. apply NoDup_blocked_seq. nia.
  - intros i j Hi Hj. by apply elem_of_StridedBlocked_spec in Hj as [? _].
  - intros j Hj. exists ((j / k) mod T). split; [by apply Z.mod_pos_bound|].
    apply elem_of_StridedBlocked_spec; [by apply Z.mod_pos_bound|done|done].
  - intros i i' j Hi Hi' H1 H2.
    apply elem_of_StridedBlocked_spec in H1 as [_ <-]; [|done..].
    by apply elem_of_StridedBlocked_spec in H2 as [_ <-].
Qed.

(** * The kernels as index sequences *)

Section KernelSequences.

Context {St : Type}.
Variable process : Z -> St -> result St.

(** The Strided kernel runs the classifier over [Strided_spec] when no
    addition [idx + gridThreadExtent] wraps. *)
Lemma Strided_kernel_run_seq fuel i T k n s :
  U32.in_range i -> 0 < T ->
  (forall idx, 0 <= idx < n -> idx + T < U32.modulus) ->
  (iterations n T i <= fuel)%nat ->
  PixelFinderKernelMultiplePointsPerThread process fuel (mkAcc i T k) n s
  = run_seq process (Strided_spec n T i) s.
Proof.
  intros Hi HT Hwrap Hfuel.
  unfold PixelFinderKernelMultiplePointsPerThread, Strided_spec. simpl.
  destruct (iterations_spec n T i HT) as [Hlt Hge].
  apply for_loop_stride_seq; try done; try (unfold U32.in_range in Hi; lia).
  destruct (iterations n T i) as [|c] eqn:Hc.
  - unfold U32.in_range in Hi. lia.
  - specialize (Hlt (Z.of_nat c) ltac:(lia)).
    specialize (Hwrap (i + Z.of_nat c * T)).
    unfold U32.in_range in Hi. nia.
Qed.

(** The StridedBlocked kernel, whatever the 32-bit products are: with a
    positive 32-bit stride and no wrapping addition to the outer index, it
    runs the classifier over the inner runs at the outer positions. *)
Lemma StridedBlocked_kernel_run_seq fuel fuel_in i T k n s :
  let start := U32.mul i k in
  let stride := U32.mul T k in
  0 <= k -> n < U32.modulus -> 0 < stride ->
  (forall idx, 0 <= idx < n -> idx + stride < U32.modulus) ->
  (iterations n stride start <= fuel)%nat ->
  (Z.to_nat k <= fuel_in)%nat ->
  PixelFinderKernelMultiplePointsPerThreadElements process fuel fuel_in
    (mkAcc i T k) n s
  = run_seq process
      (concat (inner_run n k <$>
                 stride_seq start stride (iterations n stride start))) s.
Proof.
  intros start stride Hk Hn Hstride Hwrap Hfuel Hfuel_in.
  unfold PixelFinderKernelMultiplePointsPerThreadElements. simpl.
  fold start stride.
  pose proof (U32_mul_range i k) as Hstart. fold start in Hstart.
  unfold U32.in_range in Hstart.
  destruct (iterations_spec n stride start Hstride) as [Hlt Hge].
  rewrite (for_loop_stride_seq n stride _ (iterations n stride start));
    try done; try lia.
  - rewrite <- run_seq_concat. apply run_seq_ext.
    intros p s' (q & Hq & ->)%elem_of_stride_seq.
    unfold inner_run.
    pose proof (U32_add_range (start + q * stride) k) as Hhi.
    unfold U32.in_range in Hhi.
    assert (U32.add (start + q * stride) k <= start + q * stride + k).
    { unfold U32.add, U32.wrap. apply Z.mod_le; [nia|reflexivity]. }
    apply (for_loop_run n _ _ Hn
             (Z.to_nat (Z.max 0 (Z.min (U32.add (start + q * stride) k) n
                                 - (start + q * stride))))); lia || nia.
  - destruct (iterations n stride start) as [|c] eqn:Hc; [lia|].
    specialize (Hlt (Z.of_nat c) ltac:(lia)).
    assert (0 <= Z.of_nat c * stride) by nia.
    specialize (Hwrap (start + Z.of_nat c * stride) ltac:(lia)).
    rewrite Nat2Z.inj_succ. lia.
Qed.

(** Without any 32-bit overflow the StridedBlocked kernel runs the
    classifier over [StridedBlocked_spec]. *)
Lemma StridedBlocked_kernel_spec fuel fuel_in i T k n s :
  0 <= i < T -> 0 < k -> 0 <= n -> n + T * k <= U32.modulus ->
  (iterations n (T * k) (i * k) <= fuel)%nat ->
  (Z.to_nat k <= fuel_in)%nat ->
  PixelFinderKernelMultiplePointsPerThreadElements process fuel fuel_in
    (mkAcc i T k) n s
  = run_seq process (StridedBlocked_spec n T k i) s.
Proof.
  intros Hi Hk Hn Hsum Hfuel Hfuel_in.
  destruct (iterations_spec n (T * k) (i * k) ltac:(nia)) as [Hlt0 _].
  destruct (decide (n = 0)) as [-> | Hn0].
  { unfold PixelFinderKernelMultiplePointsPerThreadElements. simpl.
    rewrite for_loop_exit
      by (apply Z.ltb_ge; pose proof (U32_mul_range i k) as [? _]; lia).
    unfold StridedBlocked_spec.
    destruct (iterations 0 (T * k) (i * k)); [done|].
    specialize (Hlt0 0 ltac:(lia)). nia. }
  assert (U32.mul T k = T * k) as HS by (apply U32_mul_small; nia).
  assert (U32.mul i k = i * k) as Hstart by (apply U32_mul_small; nia).
  rewrite StridedBlocked_kernel_run_seq; rewrite ?HS, ?Hstart; try lia; try nia.
  unfold StridedBlocked_spec, blocked_seq. do 2 f_equal.
  apply Forall_fmap_ext_1, list.Forall_forall.
  intros p (q & Hq & ->)%elem_of_stride_seq.
  destruct (iterations_spec n (T * k) (i * k) ltac:(nia)) as [Hlt _].
  specialize (Hlt q Hq).
  assert (0 <= i * k) by (apply Z.mul_nonneg_nonneg; lia).
  assert (0 < T * k) by (apply Z.mul_pos_pos; lia).
  assert (0 <= q * (T * k)) by (apply Z.mul_nonneg_nonneg; lia).
  assert (k <= T * k) by (clear - Hi Hk; nia).
  apply inner_run_no_wrap; lia.
Qed.

End KernelSequences.

Lemma Strided_calls_spec fuel i T k n :
  U32.in_range i -> 0 < T ->
  (forall idx, 0 <= idx < n -> idx + T < U32.modulus) ->
  (iterations n T i <= fuel)%nat ->
  Strided_calls fuel (mkAcc i T k) n = Done (Strided_spec n T i).
Proof.
  intros. unfold Strided_calls.
  rewrite Strided_kernel_run_seq by done. apply run_seq_log.
Qed.

Lemma StridedBlocked_calls_spec fuel fuel_in i T k n :
  0 <= i < T -> 0 < k -> 0 <= n -> n + T * k <= U32.modulus ->
  (iterations n (T * k) (i * k) <= fuel)%nat ->
  (Z.to_nat k <= fuel_in)%nat ->
  StridedBlocked_calls fuel fuel_in (mkAcc i T k) n
  = Done (StridedBlocked_spec n T k i).
Proof.
  intros. unfold StridedBlocked_calls.
  rewrite StridedBlocked_kernel_spec by done. apply run_seq_log.
Qed.

(** A kernel run that finished keeps its result when given more fuel. *)
Lemma Strided_kernel_mono {St : Type} (process : Z -> St -> result St)
    fuel fuel' acc n s s' :
  PixelFinderKernelMultiplePointsPerThread process fuel acc n s = Done s' ->
  (fuel <= fuel')%nat ->
  PixelFinderKernelMultiplePointsPerThread process fuel' acc n s = Done s'.
Proof.
  unfold PixelFinderKernelMultiplePointsPerThread. intros H Hle.
  eapply for_loop_fuel_mono; [|exact H|exact Hle]. auto.
Qed.

Lemma StridedBlocked_kernel_mono {St : Type} (process : Z -> St -> result St)
    fuel fuel_in fuel' fuel_in' acc n s s' :
  PixelFinderKernelMultiplePointsPerThreadElements process fuel fuel_in acc n s
    = Done s' ->
  (fuel <= fuel')%nat -> (fuel_in <= fuel_in')%nat ->
  PixelFinderKernelMultiplePointsPerThreadElements process fuel' fuel_in' acc n s
    = Done s'.
Proof.
  unfold PixelFinderKernelMultiplePointsPerThreadElements. intros H Hle Hle_in.
  eapply for_loop_fuel_mono; [|exact H|exact Hle].
  intros idx s0 s1 E. simpl in *.
  eapply for_loop_fuel_mono; [|exact E|exact Hle_in]. auto.
Qed.

(** A worker that finishes has one call log, whatever the fuel. *)
Lemma Strided_calls_det fuel fuel' acc n l l' :
  Strided_calls fuel acc n = Done l ->
  Strided_calls fuel' acc n = Done l' -> l = l'.
Proof.
  unfold Strided_calls. intros H H'.
  apply (Strided_kernel_mono _ _ (Nat.max fuel fuel')) in H; [|lia].
  apply (Strided_kernel_mono _ _ (Nat.max fuel fuel')) in H'; [|lia].
  congruence.
Qed.

Lemma StridedBlocked_calls_det fuel fuel_in fuel' fuel_in' acc n l l' :
  StridedBlocked_calls fuel fuel_in acc n = Done l ->
  StridedBlocked_calls fuel' fuel_in' acc n = Done l' -> l = l'.
Proof.
  unfold StridedBlocked_calls. intros H H'.
  apply (StridedBlocked_kernel_mono _ _ _
           (Nat.max fuel fuel') (Nat.max fuel_in fuel_in')) in H; [|lia..].
  apply (StridedBlocked_kernel_mono _ _ _
           (Nat.max fuel fuel') (Nat.max fuel_in fuel_in')) in H'; [|lia..].
  congruence.
Qed.

(** Two loops with the same condition agree when their steps and bodies
    agree at every value of the loop variable they reach. *)
Lemma for_loop_ext {St : Type} (I : Z -> Prop) cond step step'
    (body body' : Z -> St -> result St) :
  (forall idx s, I idx -> cond idx = true -> body idx s = body' idx s) ->
  (forall idx, I idx -> cond idx = true ->
     step idx = step' idx /\ I (step idx)) ->
  forall fuel idx s,
    I idx ->
    for_loop fuel cond step body idx s = for_loop fuel cond step' body' idx s.
Proof.
  intros Hbody Hstep fuel. induction fuel as [|fuel IH]; intros idx s HI.
  - done.
  - destruct (cond idx) eqn:Hc.
    + rewrite !for_loop_step by done. rewrite <- Hbody by done.
      destruct (body idx s); try done.
      destruct (Hstep idx HI Hc) as [<- HI']. by apply IH.
    + by rewrite !for_loop_exit.
Qed.

(** With one element per thread the blocked kernel is the strided kernel,
    for every classifier, every fuel and also when 32-bit sums wrap. *)
Lemma StridedBlocked_one_element {St : Type} (process : Z -> St -> result St)
    fuel fuel_in i T n s :
  U32.in_range i -> U32.in_range T -> n < U32.modulus ->
  (1 <= fuel_in)%nat ->
  PixelFinderKernelMultiplePointsPerThreadElements process fuel fuel_in
    (mkAcc i T 1) n s
  = PixelFinderKernelMultiplePointsPerThread process fuel (mkAcc i T 1) n s.
Proof.
  intros Hi HT Hn Hfuel.
  unfold PixelFinderKernelMultiplePointsPerThreadElements,
    PixelFinderKernelMultiplePointsPerThread. simpl.
  rewrite !U32_mul_1_r by done.
  apply (for_loop_ext U32.in_range); [| |done].
  - intros idx s0 Hidx Hc. apply Z.ltb_lt in Hc. unfold U32.in_range in Hidx.
    destruct fuel_in as [|f]; [lia|].
    rewrite U32_add_small by lia.
    rewrite for_loop_step by (apply andb_true_iff; rewrite !Z.ltb_lt; lia).
    destruct (process idx s0); try done.
    apply for_loop_exit. apply andb_false_iff. left. apply Z.ltb_ge.
    rewrite U32_add_small; lia.
  - intros idx _ _. split; [done|apply U32_add_range].
Qed.

(** * Safety of the index sequences *)

Lemma calls_below_Bounded acc n :
  0 <= getIdx_Grid_Threads acc -> calls_below n (Bounded_calls acc n).
Proof.
  intros Hi calls Hs j Hj.
  unfold Bounded_calls, PixelFinderKernelOnePointPerThread in Hs.
  destruct (getIdx_Grid_Threads acc <? n) eqn:Hc; simpl in Hs.
  - inversion Hs; subst. apply list_elem_of_singleton in Hj as ->.
    apply Z.ltb_lt in Hc. lia.
  - inversion Hs; subst. by apply elem_of_nil in Hj.
Qed.

Lemma calls_below_Strided fuel acc n :
  0 <= getIdx_Grid_Threads acc -> calls_below n (Strided_calls fuel acc n).
Proof.
  intros Hi calls Hs.
  unfold Strided_calls, PixelFinderKernelMultiplePointsPerThread in Hs.
  revert Hs.
  apply (for_loop_inv
           (fun idx l => 0 <= idx /\ forall j, j ∈ l -> 0 <= j < n)
           (fun l => forall j, j ∈ l -> 0 <= j < n)).
  - by intros idx l [_ H].
  - intros idx l l' [Hidx Hl] Hc Hb. apply Z.ltb_lt in Hc.
    unfold log_call in Hb. inversion Hb; subst. split.
    + apply U32_add_range.
    + intros j [Hj | ->%list_elem_of_singleton]%elem_of_app; [auto|lia].
  - by intros idx l l' _ _ Hb.
  - split; [done|]. by intros j ?%elem_of_nil.
Qed.

Lemma calls_below_StridedBlocked fuel fuel_in acc n :
  calls_below n (StridedBlocked_calls fuel fuel_in acc n).
Proof.
  intros calls Hs.
  unfold StridedBlocked_calls, PixelFinderKernelMultiplePointsPerThreadElements
    in Hs.
  revert Hs.
  set (Q := fun l : list Z => forall j, j ∈ l -> 0 <= j < n).
  assert (forall idx l l' hi,
            0 <= idx -> Q l ->
            state_of (for_loop fuel_in (fun i => (i <? hi) && (i <? n))
                        (fun i => U32.add i 1) (fun i s => log_call i s) idx l)
              = Some l' -> Q l') as Hinner.
  { intros idx l l' hi Hidx Hl.
    apply (for_loop_inv (fun i l => 0 <= i /\ Q l) Q).
    - by intros i0 l0 [_ H].
    - intros i0 l0 l1 [Hi0 Hl0] Hc Hb.
      apply andb_true_iff in Hc as [_ Hc%Z.ltb_lt].
      unfold log_call in Hb. inversion Hb; subst. split.
      + apply U32_add_range.
      + intros j [Hj | ->%list_elem_of_singleton]%elem_of_app; [auto|lia].
    - by intros i0 l0 l1 _ _ Hb.
    - done. }
  apply (for_loop_inv (fun idx l => 0 <= idx /\ Q l) Q).
  - by intros idx l [_ H].
  - intros idx l l' [Hidx Hl] Hc Hb. split; [apply U32_add_range|].
    eapply Hinner; [exact Hidx|exact Hl|]. by rewrite Hb.
  - intros idx l l' [Hidx Hl] Hc Hb.
    eapply Hinner; [exact Hidx|exact Hl|]. by rewrite Hb.
  - split; [apply U32_mul_range|]. by intros j ?%elem_of_nil.
Qed.

(** * The partition property *)

(** C1, as the code has it: for a problem size [n >= 0] and a shape with
    [T >= 1] workers and [k >= 1] elements per thread, the indices
    processed by the workers of the Strided kernel partition [0, n) when
    [n + T] does not exceed [2^32], and those of the StridedBlocked kernel
    do when [n + T * k] does not exceed [2^32]: every worker finishes,
    every index of [0, n) is processed by exactly one worker and exactly
    once, and no other index is processed. *)
Theorem Strided_StridedBlocked_partition n T k :
  0 <= n -> 0 < T -> 0 < k ->
  (n + T <= U32.modulus -> Strided_partitions n T k) /\
  (n + T * k <= U32.modulus -> StridedBlocked_partitions n T k).
Proof.
  intros Hn HT Hk. split; intros Hsum.
  - exists (Strided_spec n T). split; [|by apply Strided_spec_partition].
    intros i Hi. exists (iterations n T i).
    apply Strided_calls_spec; [unfold U32.in_range| | |]; try lia.
  - exists (StridedBlocked_spec n T k).
    split; [|by apply StridedBlocked_spec_partition].
    intros i Hi. exists (iterations n (T * k) (i * k)), (Z.to_nat k).
    by apply StridedBlocked_calls_spec.
Qed.

Lemma Strided_StridedBlocked_partition_witness :
  Strided_partitions 10 4 3 /\ StridedBlocked_partitions 10 4 3.
Proof.
  destruct (Strided_StridedBlocked_partition 10 4 3) as [H1 H2]; [lia..|].
  split; [apply H1 | apply H2]; u32.
Defined.

(** C1 as stated fails when the 32-bit product of the worker count and
    the element extent wraps: with one point, 65537 workers and 65536
    elements per thread, worker 65536 starts at [65536 * 65536 mod 2^32 = 0]
    and processes index 0, which worker 0 processes too. *)
Lemma StridedBlocked_partition_fails_on_wrap :
  StridedBlocked_calls 1 1 (mkAcc 0 65537 65536) 1 = Done [0] /\
  StridedBlocked_calls 1 1 (mkAcc 65536 65537 65536) 1 = Done [0] /\
  ~ StridedBlocked_partitions 1 65537 65536.
Proof.
  assert (StridedBlocked_calls 1 1 (mkAcc 0 65537 65536) 1 = Done [0])
    as H0 by (vm_compute; reflexivity).
  assert (StridedBlocked_calls 1 1 (mkAcc 65536 65537 65536) 1 = Done [0])
    as H1 by (vm_compute; reflexivity).
  split_and!; [done..|].
  intros (calls & Hruns & _ & _ & _ & Hdisj).
  destruct (Hruns 0 ltac:(lia)) as (f0 & g0 & E0).
  destruct (Hruns 65536 ltac:(lia)) as (f1 & g1 & E1).
  pose proof (StridedBlocked_calls_det _ _ _ _ _ _ _ _ E0 H0) as C0.
  pose proof (StridedBlocked_calls_det _ _ _ _ _ _ _ _ E1 H1) as C1.
  specialize (Hdisj 0 65536 0 ltac:(lia) ltac:(lia)).
  rewrite C0, C1 in Hdisj.
  specialize (Hdisj ltac:(by left) ltac:(by left)). lia.
Qed.

(** * The Strided sequence *)

(** C3, as the code has it: under the Strided kernel, for a problem size
    [n] and [T >= 1] workers with [n + T <= 2^32], the worker of index [i]
    processes exactly [i, i + T, i + 2 T, ...] in increasing order and stops
    at the first value that is not below [n]; nothing else relates [n] and
    [T]. *)
Theorem Strided_worker_sequence n T k i :
  U32.in_range i -> 0 < T -> n + T <= U32.modulus ->
  Strided_sequence n T k i.
Proof.
  intros Hi HT Hsum.
  exists (iterations n T i), (iterations n T i).
  destruct (iterations_spec n T i HT) as [Hlt Hge]. split_and!; try done.
  apply Strided_calls_spec; try done; intros; lia.
Qed.

Lemma Strided_worker_sequence_witness :
  Strided_sequence 10 4 1 1 /\ Strided_sequence 3 4 1 1 /\
  Strided_sequence 4 4 1 1.
Proof.
  split_and!; apply Strided_worker_sequence; u32.
Defined.

(** C3 as stated fails when [idx + T] wraps: with [2^31 + 5] points and
    [2^31 + 3] workers, worker [2^31] goes on from [2^31] to
    [(2^31 + 2^31 + 3) mod 2^32 = 3] instead of stopping. *)
Lemma Strided_sequence_fails_on_wrap :
  Strided_calls 2 (mkAcc (2^31) (2^31 + 3) 1) (2^31 + 5) = Done [2^31; 3] /\
  ~ Strided_sequence (2^31 + 5) (2^31 + 3) 1 (2^31).
Proof.
  assert (Strided_calls 2 (mkAcc (2^31) (2^31 + 3) 1) (2^31 + 5)
          = Done [2^31; 3]) as H by (vm_compute; reflexivity).
  split; [done|].
  intros (fuel & c & E & _ & _).
  pose proof (Strided_calls_det _ _ _ _ _ _ E H) as C.
  destruct c as [|[|[|c]]]; simpl in C; discriminate.
Qed.

(** * Blocking *)

Lemma lookup_stride_seq start stride c (j : nat) p :
  stride_seq start stride c !! j = Some p -> p = start + Z.of_nat j * stride.
Proof.
  revert start j. induction c as [|c IH]; intros start [|j] H; simpl in H;
    try done.
  - injection H as <-. lia.
  - apply IH in H. lia.
Qed.

(** C4, as the code has it: for a worker [i < T] of the StridedBlocked
    kernel with [k >= 1] elements per thread and [n + T * k <= 2^32], the
    indices processed are the contiguous runs of [k] indices at the
    positions [i k, i k + T k, ...] below [n], each cut at [n], so that
    only the last run can be shorter than [k]; and for [k = 1] the kernel
    processes the same index sequence as the Strided kernel, for every
    [n], [T], [i] and at every fuel. *)
Theorem StridedBlocked_contiguous_runs n T k i :
  U32.in_range n -> U32.in_range T -> 0 <= i < T ->
  (0 < k -> n + T * k <= U32.modulus ->
   StridedBlocked_runs n T k i /\ StridedBlocked_visits_runs n T k i) /\
  (forall fuel fuel_in,
     (1 <= fuel_in)%nat ->
     StridedBlocked_calls fuel fuel_in (mkAcc i T 1) n
     = Strided_calls fuel (mkAcc i T 1) n).
Proof.
  intros Hn HT Hi. split.
  - intros Hk Hsum.
    destruct (iterations_spec n (T * k) (i * k) ltac:(nia)) as [Hlt Hge].
    assert (StridedBlocked_calls (iterations n (T * k) (i * k)) (Z.to_nat k)
              (mkAcc i T k) n = Done (StridedBlocked_spec n T k i)) as Hrun.
    { apply StridedBlocked_calls_spec; try done.
      unfold U32.in_range in Hn. lia. }
    split.
    + exists (iterations n (T * k) (i * k)), (Z.to_nat k),
        (iterations n (T * k) (i * k)).
      by split_and!.
    + exists (iterations n (T * k) (i * k)), (Z.to_nat k),
        (StridedBlocked_spec n T k i).
      split; [done|].
      exists (stride_seq (i * k) (T * k) (iterations n (T * k) (i * k))).
      split_and!; [done| |].
      * intros p (q & Hq & ->)%elem_of_stride_seq.
        specialize (Hlt q Hq).
        assert (0 <= i * k) by (apply Z.mul_nonneg_nonneg; lia).
        assert (0 <= q * (T * k)) by (apply Z.mul_nonneg_nonneg; nia).
        lia.
      * intros j p Hp Hj. rewrite stride_seq_length in Hj.
        apply lookup_stride_seq in Hp as ->.
        specialize (Hlt (Z.of_nat (S j)) ltac:(lia)).
        rewrite Nat2Z.inj_succ in Hlt.
        assert (k <= T * k) by nia. lia.
  - intros fuel fuel_in Hf. unfold StridedBlocked_calls, Strided_calls.
    apply StridedBlocked_one_element; try done;
      unfold U32.in_range in *; lia.
Qed.

Lemma StridedBlocked_contiguous_runs_witness :
  (StridedBlocked_runs 10 2 3 1 /\ StridedBlocked_visits_runs 10 2 3 1) /\
  StridedBlocked_calls 5 1 (mkAcc 1 2 1) 10 = Strided_calls 5 (mkAcc 1 2 1) 10.
Proof.
  destruct (StridedBlocked_contiguous_runs 10 2 3 1) as [H1 H2]; [u32..|].
  split; [apply H1; u32 | apply H2; lia].
Defined.

(** C4 as stated fails when the stride [T * k] wraps to less than [k]:
    with [2^32 - 6] points, 613566757 workers and 7 elements per thread the
    32-bit stride is [613566757 * 7 mod 2^32 = 3], and worker 613566755
    processes the five indices from [2^32 - 11] up to the last point and
    then, three further on, the last two points again: the first run is
    cut at [n] although it is not the last, and the runs overlap. *)
Lemma StridedBlocked_runs_overlap_on_wrap :
  StridedBlocked_calls 3 8 (mkAcc 613566755 613566757 7) 4294967290
  = Done [4294967285; 4294967286; 4294967287; 4294967288; 4294967289;
          4294967288; 4294967289] /\
  ~ StridedBlocked_visits_runs 4294967290 613566757 7 613566755.
Proof.
  assert (StridedBlocked_calls 3 8 (mkAcc 613566755 613566757 7) 4294967290
          = Done [4294967285; 4294967286; 4294967287; 4294967288; 4294967289;
                  4294967288; 4294967289])
    as H by (vm_compute; reflexivity).
  split; [done|].
  intros (fuel & fuel_in & log & E & ps & Hlog & Hin & Hfull).
  pose proof (StridedBlocked_calls_det _ _ _ _ _ _ _ _ E H) as ->.
  destruct ps as [|p ps]; [discriminate Hlog|].
  pose proof (Hin p ltac:(left)) as Hp.
  rewrite fmap_cons in Hlog. simpl concat in Hlog. unfold run_of at 1 in Hlog.
  destruct (decide (p + 7 <= 4294967290)) as [Hle|Hgt].
  - replace (Z.min 7 (4294967290 - p)) with 7 in Hlog by lia.
    change (seqZ p 7) with (seqZ p (Z.succ 6)) in Hlog.
    rewrite seqZ_cons in Hlog by lia. simpl in Hlog.
    injection Hlog as Hp0 _. lia.
  - destruct ps as [|p' ps].
    + replace (Z.min 7 (4294967290 - p)) with (Z.succ (4294967290 - p - 1))
        in Hlog by lia.
      rewrite seqZ_cons in Hlog by lia. simpl in Hlog.
      injection Hlog as Hp0 Hrest. subst p.
      vm_compute in Hrest. discriminate Hrest.
    + specialize (Hfull 0%nat p eq_refl ltac:(simpl; lia)). lia.
Qed.

(** * As many workers as points *)

Lemma iterations_one T i : 0 <= i < T -> iterations T T i = 1%nat.
Proof.
  intros Hi. destruct (iterations_spec T T i ltac:(lia)) as [Hlt Hge].
  destruct (iterations T T i) as [|[|c]]; [lia|done|].
  specialize (Hlt 1 ltac:(lia)). lia.
Qed.

(** C5, as the code has it: when the problem size equals the worker count
    [T] and [T <= 2^31], every worker [i] of the Exact, the Bounded and
    the Strided kernel processes its own index [i] and nothing else, so
    the three kernels process the same indices per worker, and these
    partition [0, T). *)
Theorem equal_size_own_index T k :
  T <= 2 ^ 31 ->
  (forall i, 0 <= i < T -> own_index_only T T k i) /\
  partition_of T T (fun i => [i]).
Proof.
  intros HT. split.
  - intros i Hi. unfold own_index_only. split_and!.
    + reflexivity.
    + unfold Bounded_calls, PixelFinderKernelOnePointPerThread. simpl.
      by rewrite (proj2 (Z.ltb_lt i T)) by lia.
    + exists 1%nat. rewrite Strided_calls_spec.
      * unfold Strided_spec. by rewrite iterations_one.
      * unfold U32.in_range. rewrite U32_modulus_eq. lia.
      * lia.
      * intros idx Hidx. rewrite U32_modulus_eq. lia.
      * by rewrite iterations_one.
  - split_and!.
    + intros i _. apply NoDup_singleton.
    + intros i j Hi ->%list_elem_of_singleton. done.
    + intros j Hj. exists j. split; [done|]. by apply list_elem_of_singleton.
    + intros i i' j _ _ ->%list_elem_of_singleton ->%list_elem_of_singleton.
      done.
Qed.

Lemma equal_size_own_index_witness :
  own_index_only 4 4 1 2 /\ partition_of 4 4 (fun i => [i]).
Proof.
  destruct (equal_size_own_index 4 1) as [H1 H2]; [lia|].
  split; [apply H1; lia | exact H2].
Defined.

(** C5 as stated fails when [i + T] wraps: with [2^31 + 1] points and as
    many workers, worker [2^31] of the Strided kernel processes index 1
    after its own. *)
Lemma equal_size_fails_on_wrap :
  Strided_calls 2 (mkAcc (2^31) (2^31 + 1) 1) (2^31 + 1) = Done [2^31; 1] /\
  ~ own_index_only (2^31 + 1) (2^31 + 1) 1 (2^31).
Proof.
  assert (Strided_calls 2 (mkAcc (2^31) (2^31 + 1) 1) (2^31 + 1)
          = Done [2^31; 1]) as H by (vm_compute; reflexivity).
  split; [done|].
  intros (_ & _ & fuel & E).
  pose proof (Strided_calls_det _ _ _ _ _ _ E H) as C. discriminate C.
Qed.

(** * Termination *)

(** C9, as the code has it: with a classifier that returns, the loop of
    the Strided kernel finishes when [T >= 1] and no [idx + T] with
    [idx < n] reaches [2^32], after at most [ceil (n / T)] iterations;
    the outer loop of the StridedBlocked kernel finishes when moreover its
    32-bit stride [T * k mod 2^32] is at least 1 and no [idx + stride] with
    [idx < n] reaches [2^32], after at most [ceil (n / stride)]
    iterations, each inner loop after at most [k]. *)
Theorem strided_loops_terminate {St : Type} (process : Z -> St -> result St)
    n i T k s :
  total_process process ->
  U32.in_range n -> U32.in_range i -> 0 <= k ->
  (0 < T ->
   (forall idx, 0 <= idx < n -> idx + T < U32.modulus) ->
   exists s',
     PixelFinderKernelMultiplePointsPerThread process
       (Z.to_nat (ceil_div n T)) (mkAcc i T k) n s = Done s') /\
  (0 < U32.mul T k ->
   (forall idx, 0 <= idx < n -> idx + U32.mul T k < U32.modulus) ->
   exists s',
     PixelFinderKernelMultiplePointsPerThreadElements process
       (Z.to_nat (ceil_div n (U32.mul T k))) (Z.to_nat k) (mkAcc i T k) n s
     = Done s').
Proof.
  intros Htot Hn Hi Hk. split.
  - intros HT Hwrap.
    rewrite Strided_kernel_run_seq; try done.
    + by apply run_seq_total.
    + pose proof (iterations_le_ceil n T i HT) as Hle.
      unfold U32.in_range in Hi. lia.
  - intros HS Hwrap.
    rewrite StridedBlocked_kernel_run_seq; try done.
    + by apply run_seq_total.
    + unfold U32.in_range in Hn. lia.
    + pose proof (iterations_le_ceil n (U32.mul T k) (U32.mul i k) HS) as Hle.
      pose proof (U32_mul_range i k) as [? _]. lia.
Qed.

Lemma strided_loops_terminate_witness :
  (exists calls, Strided_calls 3 (mkAcc 1 4 3) 10 = Done calls) /\
  (exists calls, StridedBlocked_calls 1 3 (mkAcc 1 4 3) 10 = Done calls).
Proof.
  destruct (strided_loops_terminate log_call 10 1 4 3 [] log_call_total)
    as [H1 H2]; [u32..|].
  split.
  - apply H1; [lia|]. intros idx Hidx. u32.
  - apply H2; [reflexivity|]. intros idx Hidx.
    change (U32.mul 4 3) with 12. u32.
Defined.

(** A blocked worker whose 32-bit stride is 0 and whose first index is
    below [n] never leaves the outer loop. *)
Lemma StridedBlocked_stride_0 fuel fuel_in i T k n (calls : list Z) :
  U32.mul T k = 0 -> U32.mul i k < n ->
  StridedBlocked_calls fuel fuel_in (mkAcc i T k) n <> Done calls.
Proof.
  intros Hmul Hstart.
  unfold StridedBlocked_calls, PixelFinderKernelMultiplePointsPerThreadElements.
  simpl getIdx_Grid_Threads. simpl getWorkDiv_Grid_Threads.
  simpl getWorkDiv_Thread_Elems. rewrite Hmul.
  pose proof (U32_mul_range i k) as [Hge Hlt].
  revert calls. generalize (@nil Z) as l.
  induction fuel as [|fuel IH]; intros l calls.
  - by rewrite for_loop_no_fuel by (by apply Z.ltb_lt).
  - rewrite for_loop_step by (by apply Z.ltb_lt).
    match goal with |- context [match ?r with _ => _ end] => destruct r end;
      [|done..].
    rewrite U32_add_small by (rewrite Z.add_0_r; done).
    rewrite Z.add_0_r. apply IH.
Qed.

(** C9 as stated fails when the product [T * k] wraps to 0: with 65536
    workers and 65536 elements per thread no addition wraps, the stride is
    [65536 * 65536 mod 2^32 = 0] and worker 0 never leaves the outer loop,
    whatever the fuel. *)
Lemma StridedBlocked_zero_stride_diverges :
  U32.mul 65536 65536 = 0 /\
  (forall idx, 0 <= idx < 1 -> idx + U32.mul 65536 65536 < U32.modulus) /\
  (forall i, 0 <= i < 1 -> i + 1 < U32.modulus) /\
  forall fuel fuel_in calls,
    StridedBlocked_calls fuel fuel_in (mkAcc 0 65536 65536) 1 <> Done calls.
Proof.
  assert (U32.mul 65536 65536 = 0) as Hmul by reflexivity.
  split_and!; [done|intros; rewrite Hmul, U32_modulus_eq; lia
              |intros; rewrite U32_modulus_eq; lia|].
  intros fuel fuel_in calls. by apply StridedBlocked_stride_0.
Qed.

(** * No call beyond the problem size *)

(** C2, as the code has it: for every problem size [n], worker and shape,
    at every fuel, the Bounded, the Strided and the StridedBlocked kernel
    hand only flat indices below [n] to the classifier, and a worker whose
    first index is not below [n] processes nothing; the Exact kernel takes
    no [n] and processes the index of its worker, which is below [n] only
    when the worker index is. *)
Theorem no_call_beyond_n acc n fuel fuel_in :
  valid_acc acc ->
  calls_below n (Bounded_calls acc n) /\
  calls_below n (Strided_calls fuel acc n) /\
  calls_below n (StridedBlocked_calls fuel fuel_in acc n) /\
  (calls_below n (Exact_calls acc) <-> getIdx_Grid_Threads acc < n) /\
  (n <= getIdx_Grid_Threads acc ->
   Bounded_calls acc n = Done [] /\ Strided_calls fuel acc n = Done []) /\
  (n <= U32.mul (getIdx_Grid_Threads acc) (getWorkDiv_Thread_Elems acc) ->
   StridedBlocked_calls fuel fuel_in acc n = Done []).
Proof.
  intros ([Hi _] & _ & _ & _). split_and!.
  - by apply calls_below_Bounded.
  - by apply calls_below_Strided.
  - apply calls_below_StridedBlocked.
  - unfold calls_below, Exact_calls,
      PixelFinderKernelOnePointPerThreadSimplified, log_call. simpl. split.
    + intros H. apply (H [getIdx_Grid_Threads acc] eq_refl). by left.
    + intros Hlt calls [= <-] j ->%list_elem_of_singleton. lia.
  - intros Hge. split.
    + unfold Bounded_calls, PixelFinderKernelOnePointPerThread.
      by rewrite (proj2 (Z.ltb_ge _ _) Hge).
    + unfold Strided_calls, PixelFinderKernelMultiplePointsPerThread.
      apply for_loop_exit. by apply Z.ltb_ge.
  - intros Hge.
    unfold StridedBlocked_calls,
      PixelFinderKernelMultiplePointsPerThreadElements.
    apply for_loop_exit. by apply Z.ltb_ge.
Qed.

Lemma no_call_beyond_n_witness :
  calls_below 10 (Bounded_calls (mkAcc 1 4 3) 10) /\
  calls_below 10 (Strided_calls 5 (mkAcc 1 4 3) 10) /\
  calls_below 10 (StridedBlocked_calls 5 5 (mkAcc 1 4 3) 10).
Proof.
  assert (valid_acc (mkAcc 1 4 3)) as Hv by u32.
  destruct (no_call_beyond_n (mkAcc 1 4 3) 10 5 5 Hv) as (H1 & H2 & H3 & _).
  by split_and!.
Defined.

(** C2 as stated fails for the Exact kernel, which has no bound to test:
    with one point and two workers, worker 1 hands index 1 to the
    classifier. *)
Lemma Exact_calls_beyond_n :
  valid_acc (mkAcc 1 2 1) /\
  Exact_calls (mkAcc 1 2 1) = Done [1] /\
  ~ calls_below 1 (Exact_calls (mkAcc 1 2 1)).
Proof.
  split_and!.
  - u32.
  - reflexivity.
  - intros H. specialize (H [1] eq_refl 1 ltac:(by left)). lia.
Qed.

(** * The frame of the kernels *)

(** Two loops in step: with related states, bodies that keep the states
    related keep the outcomes of the loops related. *)
Lemma for_loop_rel {A B : Type} (R : A -> B -> Prop) (I : Z -> Prop)
    cond step (bodyA : Z -> A -> result A) (bodyB : Z -> B -> result B) :
  (forall idx a b, I idx -> R a b -> cond idx = true ->
     result_rel R (bodyA idx a) (bodyB idx b)) ->
  (forall idx, I idx -> cond idx = true -> I (step idx)) ->
  forall fuel idx a b,
    I idx -> R a b ->
    result_rel R (for_loop fuel cond step bodyA idx a)
                 (for_loop fuel cond step bodyB idx b).
Proof.
  intros Hbody Hstep fuel. induction fuel as [|fuel IH]; intros idx a b HI HR.
  - destruct (cond idx) eqn:Hc.
    + by rewrite !for_loop_no_fuel.
    + by rewrite !for_loop_exit.
  - destruct (cond idx) eqn:Hc.
    + rewrite !for_loop_step by done.
      specialize (Hbody idx a b HI HR Hc).
      destruct (bodyA idx a), (bodyB idx b); simpl in Hbody; try done.
      apply IH; auto.
    + by rewrite !for_loop_exit.
Qed.

(** A loop whose body does not fault under an invariant does not fault. *)
Lemma for_loop_no_fault {St : Type} (P : Z -> St -> Prop) cond step
    (body : Z -> St -> result St) :
  (forall idx s, P idx s -> cond idx = true -> body idx s <> Fault) ->
  (forall idx s s', P idx s -> cond idx = true ->
     body idx s = Done s' -> P (step idx) s') ->
  forall fuel idx s, P idx s -> for_loop fuel cond step body idx s <> Fault.
Proof.
  intros Hsafe Hstep fuel. induction fuel as [|fuel IH]; intros idx s HP.
  - destruct (cond idx) eqn:Hc.
    + by rewrite for_loop_no_fuel.
    + by rewrite for_loop_exit.
  - destruct (cond idx) eqn:Hc.
    + rewrite for_loop_step by done.
      destruct (body idx s) as [s1|s1|] eqn:Hb; [|done|].
      * apply IH. eauto.
      * by apply Hsafe in Hb.
    + by rewrite for_loop_exit.
Qed.

(** What [processPoint] writes: the flag of the point at [idx], and
    nothing else. *)
Lemma processPoint_writes pts r idx pts' :
  processPoint pts r idx = Done pts' ->
  exists px py,
    x pts !! Z.to_nat idx = Some px /\ y pts !! Z.to_nat idx = Some py /\
    x pts' = x pts /\ y pts' = y pts /\
    inside pts' = <[Z.to_nat idx := F32.leb (distance px py) r]> (inside pts).
Proof.
  unfold processPoint. intros H.
  destruct (x pts !! Z.to_nat idx) as [px|]; [|done].
  destruct (y pts !! Z.to_nat idx) as [py|]; [|done].
  destruct (decide _); [|done]. inversion H; subst; simpl. eauto 10.
Qed.

(** The lesson kernel is the Exact kernel with the classifier inlined. *)
Lemma PixelFinderKernel_inlines acc pts r :
  PixelFinderKernel acc pts r
  = PixelFinderKernelOnePointPerThreadSimplified (classify r) acc pts.
Proof. reflexivity. Qed.

Lemma classify_frame pts0 r idx pts calls :
  0 <= idx -> frame pts0 calls pts ->
  result_rel (fun pts calls => frame pts0 calls pts)
    (classify r idx pts) (log_call idx calls).
Proof.
  intros Hidx (Hx & Hy & Hlen & Hin). unfold classify, log_call.
  destruct (processPoint pts r idx) as [pts'|pts'|] eqn:Hp; simpl; [| |done].
  - apply processPoint_writes in Hp as (px & py & _ & _ & Hx' & Hy' & Hi').
    split_and!; [congruence..| |].
    + rewrite Hi', length_insert. done.
    + intros j Hj. apply not_elem_of_app in Hj as [Hj1 Hj2].
      rewrite Hi', list_lookup_insert_ne; [auto|].
      intros Heq. apply Hj2, list_elem_of_singleton. lia.
  - unfold processPoint in Hp.
    destruct (x pts !! Z.to_nat idx); [|done].
    destruct (y pts !! Z.to_nat idx); [|done].
    by destruct (decide _).
Qed.

(** With buffers of at least [n] elements the classifier returns at every
    flat index below [n], and leaves the buffers as long as they were. *)
Lemma classify_in_range r n idx pts :
  0 <= idx < n ->
  n <= Z.of_nat (length (x pts)) -> n <= Z.of_nat (length (y pts)) ->
  n <= Z.of_nat (length (inside pts)) ->
  exists pts', classify r idx pts = Done pts' /\
    length (x pts') = length (x pts) /\ length (y pts') = length (y pts) /\
    length (inside pts') = length (inside pts).
Proof.
  intros Hidx Hx Hy Hi. unfold classify, processPoint.
  destruct (lookup_lt_is_Some_2 (x pts) (Z.to_nat idx) ltac:(lia)) as [px ->].
  destruct (lookup_lt_is_Some_2 (y pts) (Z.to_nat idx) ltac:(lia)) as [py ->].
  destruct (decide _); [|lia]. eexists. split; [done|]. simpl.
  by rewrite length_insert.
Qed.

Section KernelRel.

Context {A B : Type}.
Variable R : A -> B -> Prop.
Variable pa : Z -> A -> result A.
Variable pb : Z -> B -> result B.
Hypothesis pa_pb :
  forall idx a b, 0 <= idx -> R a b -> result_rel R (pa idx a) (pb idx b).

Lemma Exact_rel acc a b :
  0 <= getIdx_Grid_Threads acc -> R a b ->
  result_rel R (PixelFinderKernelOnePointPerThreadSimplified pa acc a)
               (PixelFinderKernelOnePointPerThreadSimplified pb acc b).
Proof. intros. by apply pa_pb. Qed.

Lemma Bounded_rel acc n a b :
  0 <= getIdx_Grid_Threads acc -> R a b ->
  result_rel R (PixelFinderKernelOnePointPerThread pa acc n a)
               (PixelFinderKernelOnePointPerThread pb acc n b).
Proof.
  intros. unfold PixelFinderKernelOnePointPerThread.
  destruct (_ <? n); [by apply pa_pb|done].
Qed.

Lemma Strided_rel fuel acc n a b :
  0 <= getIdx_Grid_Threads acc -> R a b ->
  result_rel R (PixelFinderKernelMultiplePointsPerThread pa fuel acc n a)
               (PixelFinderKernelMultiplePointsPerThread pb fuel acc n b).
Proof.
  intros Hi HR. unfold PixelFinderKernelMultiplePointsPerThread.
  apply (for_loop_rel R (fun idx => 0 <= idx)); auto.
  intros idx _ _. apply U32_add_range.
Qed.

Lemma StridedBlocked_rel fuel fuel_in acc n a b :
  R a b ->
  result_rel R
    (PixelFinderKernelMultiplePointsPerThreadElements pa fuel fuel_in acc n a)
    (PixelFinderKernelMultiplePointsPerThreadElements pb fuel fuel_in acc n b).
Proof.
  intros HR. unfold PixelFinderKernelMultiplePointsPerThreadElements.
  apply (for_loop_rel R (fun idx => 0 <= idx)); auto.
  - intros idx a' b' Hidx HR' _.
    apply (for_loop_rel R (fun i => 0 <= i)); auto.
    intros i _ _. apply U32_add_range.
  - intros idx _ _. apply U32_add_range.
  - apply U32_mul_range.
Qed.

Lemma launch_rel (Ka : Acc -> A -> result A) (Kb : Acc -> B -> result B) ws :
  (forall acc a b, acc ∈ ws -> R a b -> result_rel R (Ka acc a) (Kb acc b)) ->
  forall a b, R a b -> result_rel R (launch Ka ws a) (launch Kb ws b).
Proof.
  induction ws as [|acc ws IH]; intros HK a b HR; simpl; [done|].
  pose proof (HK acc a b ltac:(by left) HR) as Hrel.
  destruct (Ka acc a), (Kb acc b); simpl in Hrel; try done.
  apply IH; [|done]. intros acc' a' b' Hin. apply HK. by right.
Qed.

End KernelRel.

Lemma frame_refl pts0 : frame pts0 [] pts0.
Proof. by split_and!. Qed.

Lemma frame_buffers_hold n pts0 calls pts :
  frame pts0 calls pts -> buffers_hold n pts0 -> buffers_hold n pts.
Proof.
  intros (Hx & Hy & Hl & _) (? & ? & ?). unfold buffers_hold.
  by rewrite Hx, Hy, Hl.
Qed.

Section NoFault.

Variable r : F32.float.
Variable n : Z.

Lemma classify_no_fault idx pts :
  0 <= idx < n -> buffers_hold n pts ->
  classify r idx pts <> Fault /\
  forall pts', classify r idx pts = Done pts' -> buffers_hold n pts'.
Proof.
  intros Hidx (Hx & Hy & Hi).
  destruct (classify_in_range r n idx pts Hidx Hx Hy Hi)
    as (pts1 & -> & Hx' & Hy' & Hi').
  split; [done|]. intros pts' [= <-]. unfold buffers_hold.
  by rewrite Hx', Hy', Hi'.
Qed.

Lemma Bounded_no_fault acc pts :
  0 <= getIdx_Grid_Threads acc -> buffers_hold n pts ->
  PixelFinderKernelOnePointPerThread (classify r) acc n pts <> Fault.
Proof.
  intros Hi Hb. unfold PixelFinderKernelOnePointPerThread.
  destruct (_ <? n) eqn:Hc; [|done].
  apply classify_no_fault; [|done]. apply Z.ltb_lt in Hc. lia.
Qed.

Lemma Strided_no_fault fuel acc pts :
  0 <= getIdx_Grid_Threads acc -> buffers_hold n pts ->
  PixelFinderKernelMultiplePointsPerThread (classify r) fuel acc n pts <> Fault.
Proof.
  intros Hi Hb. unfold PixelFinderKernelMultiplePointsPerThread.
  apply (for_loop_no_fault (fun idx s => 0 <= idx /\ buffers_hold n s));
    [| |done].
  - intros idx s [Hidx Hs] Hc%Z.ltb_lt. by apply classify_no_fault.
  - intros idx s s' [Hidx Hs] Hc%Z.ltb_lt Hrun. split; [apply U32_add_range|].
    by apply (classify_no_fault idx s).
Qed.

Lemma StridedBlocked_no_fault fuel fuel_in acc pts :
  buffers_hold n pts ->
  PixelFinderKernelMultiplePointsPerThreadElements (classify r) fuel fuel_in
    acc n pts <> Fault.
Proof.
  intros Hb. unfold PixelFinderKernelMultiplePointsPerThreadElements.
  set (P := fun (idx : Z) (s : Points) => 0 <= idx /\ buffers_hold n s).
  assert (forall hi fuel i s, P i s ->
            for_loop fuel (fun i => (i <? hi) && (i <? n))
              (fun i => U32.add i 1) (fun i s => classify r i s) i s <> Fault)
    as Hsafe.
  { intros hi f. apply (for_loop_no_fault P).
    - intros i s [Hi Hs] [_ Hc%Z.ltb_lt]%andb_true_iff.
      by apply classify_no_fault.
    - intros i s s' [Hi Hs] [_ Hc%Z.ltb_lt]%andb_true_iff Hrun.
      split; [apply U32_add_range|]. by apply (classify_no_fault i s). }
  assert (forall hi fuel i s s', P i s ->
            for_loop fuel (fun i => (i <? hi) && (i <? n))
              (fun i => U32.add i 1) (fun i s => classify r i s) i s = Done s'
            -> buffers_hold n s') as Hkeep.
  { intros hi f i s s' HP Hrun.
    eapply (for_loop_inv P (buffers_hold n)); [| | |exact HP|by rewrite Hrun].
    - by intros ? ? [_ ?].
    - intros i0 s0 s1 [Hi0 Hs0] [_ Hc%Z.ltb_lt]%andb_true_iff Hr.
      split; [apply U32_add_range|]. by apply (classify_no_fault i0 s0).
    - intros i0 s0 s1 [Hi0 Hs0] [_ Hc%Z.ltb_lt]%andb_true_iff Hr.
      unfold classify, processPoint in Hr.
      destruct (x s0 !! Z.to_nat i0); [|done].
      destruct (y s0 !! Z.to_nat i0); [|done]. by destruct (decide _). }
  apply (for_loop_no_fault P).
  - intros idx s HP _. by apply Hsafe.
  - intros idx s s' [Hidx Hs] _ Hrun. split; [apply U32_add_range|].
    by apply (Hkeep _ _ _ _ _ (conj Hidx Hs) Hrun).
  - split; [apply U32_mul_range|done].
Qed.

End NoFault.

Lemma launch_no_fault n (K : Acc -> Points -> result Points) ws :
  (forall acc pts, acc ∈ ws -> buffers_hold n pts ->
     K acc pts <> Fault /\
     forall pts', K acc pts = Done pts' -> buffers_hold n pts') ->
  forall pts, buffers_hold n pts -> launch K ws pts <> Fault.
Proof.
  induction ws as [|acc ws IH]; intros HK pts Hb; simpl; [done|].
  destruct (HK acc pts ltac:(by left) Hb) as [Hnf Hkeep].
  destruct (K acc pts) as [pts'|pts'|]; [|done..].
  apply IH; [|by apply Hkeep]. intros acc' pts1 Hin. apply HK. by right.
Qed.

(** A kernel that is framed keeps the buffers as long as they were. *)
Lemma framed_kernel_keeps n (Kmem : Points -> result Points)
    (Klog : list Z -> result (list Z)) pts pts' :
  result_rel (fun p calls => frame pts calls p) (Kmem pts) (Klog []) ->
  buffers_hold n pts -> Kmem pts = Done pts' -> buffers_hold n pts'.
Proof.
  intros Hrel Hb E. rewrite E in Hrel. destruct (Klog []); simpl in Hrel; try done.
  by eapply frame_buffers_hold.
Qed.

(** C10: [processPoint] writes the flag of its index and nothing else;
    hence, for every launch of one of the four kernels of the homework or
    of the lesson kernel over workers with 32-bit indices, the coordinate
    buffers are as before and the flag buffer is changed at most at the
    indices handed to the classifier; and with buffers of at least [n]
    elements the launches of the three kernels that take [n] do not touch
    memory outside the buffers. *)
Theorem kernels_write_flags_only r n fuel fuel_in ws pts0 :
  Forall valid_acc ws ->
  (forall pts idx pts',
     processPoint pts r idx = Done pts' ->
     x pts' = x pts /\ y pts' = y pts /\
     exists flag, inside pts' = <[Z.to_nat idx := flag]> (inside pts)) /\
  launch_frame (PixelFinderKernelOnePointPerThreadSimplified (classify r))
    (PixelFinderKernelOnePointPerThreadSimplified log_call) ws pts0 /\
  launch_frame (fun acc => PixelFinderKernelOnePointPerThread (classify r) acc n)
    (fun acc => PixelFinderKernelOnePointPerThread log_call acc n) ws pts0 /\
  launch_frame
    (fun acc => PixelFinderKernelMultiplePointsPerThread (classify r) fuel acc n)
    (fun acc => PixelFinderKernelMultiplePointsPerThread log_call fuel acc n)
    ws pts0 /\
  launch_frame
    (fun acc => PixelFinderKernelMultiplePointsPerThreadElements (classify r)
                  fuel fuel_in acc n)
    (fun acc => PixelFinderKernelMultiplePointsPerThreadElements log_call
                  fuel fuel_in acc n)
    ws pts0 /\
  launch_frame (fun acc pts => PixelFinderKernel acc pts r)
    (PixelFinderKernelOnePointPerThreadSimplified log_call) ws pts0 /\
  (buffers_hold n pts0 ->
   launch (fun acc => PixelFinderKernelOnePointPerThread (classify r) acc n)
     ws pts0 <> Fault /\
   launch (fun acc => PixelFinderKernelMultiplePointsPerThread (classify r)
                        fuel acc n) ws pts0 <> Fault /\
   launch (fun acc => PixelFinderKernelMultiplePointsPerThreadElements
                        (classify r) fuel fuel_in acc n) ws pts0 <> Fault).
Proof.
  intros Hws.
  assert (forall acc, acc ∈ ws -> 0 <= getIdx_Grid_Threads acc) as Hidx.
  { intros acc Hin. rewrite list.Forall_forall in Hws.
    by destruct (Hws acc Hin) as ([? _] & _). }
  assert (forall p0 idx a b, 0 <= idx -> frame p0 b a ->
            result_rel (fun pts calls => frame p0 calls pts)
              (classify r idx a) (log_call idx b)) as Hcl.
  { intros. by apply classify_frame. }
  split_and!.
  - intros pts idx pts' H.
    apply processPoint_writes in H as (px & py & _ & _ & ? & ? & ?). eauto.
  - apply launch_rel; [|apply frame_refl].
    intros acc a b Hin HR. apply Exact_rel; auto.
  - apply launch_rel; [|apply frame_refl].
    intros acc a b Hin HR. apply Bounded_rel; auto.
  - apply launch_rel; [|apply frame_refl].
    intros acc a b Hin HR. apply Strided_rel; auto.
  - apply launch_rel; [|apply frame_refl].
    intros acc a b Hin HR. apply StridedBlocked_rel; auto.
  - apply launch_rel; [|apply frame_refl].
    intros acc a b Hin HR. rewrite PixelFinderKernel_inlines.
    apply Exact_rel; auto.
  - intros Hb. split_and!; apply (launch_no_fault n); try done.
    + intros acc pts Hin Hp. split; [by apply Bounded_no_fault; auto|].
      intros pts' E.
      apply (framed_kernel_keeps n
               (PixelFinderKernelOnePointPerThread (classify r) acc n)
               (PixelFinderKernelOnePointPerThread log_call acc n) pts pts');
        [|done|exact E].
      apply Bounded_rel; auto using frame_refl.
    + intros acc pts Hin Hp. split; [by apply Strided_no_fault; auto|].
      intros pts' E.
      apply (framed_kernel_keeps n
               (PixelFinderKernelMultiplePointsPerThread (classify r) fuel acc n)
               (PixelFinderKernelMultiplePointsPerThread log_call fuel acc n)
               pts pts'); [|done|exact E].
      apply Strided_rel; auto using frame_refl.
    + intros acc pts Hin Hp. split; [by apply StridedBlocked_no_fault; auto|].
      intros pts' E.
      apply (framed_kernel_keeps n
               (PixelFinderKernelMultiplePointsPerThreadElements (classify r)
                  fuel fuel_in acc n)
               (PixelFinderKernelMultiplePointsPerThreadElements log_call
                  fuel fuel_in acc n) pts pts'); [|done|exact E].
      apply StridedBlocked_rel; auto using frame_refl.
Qed.

Lemma kernels_write_flags_only_witness :
  launch_frame
    (fun acc => PixelFinderKernelMultiplePointsPerThread
                  (classify (F32.lit 1 0)) 3 acc 3)
    (fun acc => PixelFinderKernelMultiplePointsPerThread log_call 3 acc 3)
    [mkAcc 0 2 1; mkAcc 1 2 1]
    (mkPoints [F32.lit 0 0; F32.lit 1 0; F32.lit 2 0]
              [F32.lit 0 0; F32.lit 0 0; F32.lit 0 0] [false; false; true]).
Proof.
  assert (Forall valid_acc [mkAcc 0 2 1; mkAcc 1 2 1]) as Hws
    by (repeat apply Forall_cons; [u32..|apply Forall_nil]).
  exact (proj1 (proj2 (proj2 (proj2
    (kernels_write_flags_only (F32.lit 1 0) 3 3 1 _ _ Hws))))).
Defined.

(** * The host reduction *)

Lemma count_true_cons b flags :
  count_true (b :: flags) = (if b then 1 else 0) + count_true flags.
Proof.
  unfold count_true. destruct b.
  - rewrite filter_cons_True by done. simpl length. lia.
  - rewrite filter_cons_False by done. lia.
Qed.

Lemma count_true_bounds flags :
  0 <= count_true flags <= Z.of_nat (length flags).
Proof.
  unfold count_true. pose proof (length_filter (fun b => b = true) flags). lia.
Qed.

(** The counting loop from index [i] with [P] flags counted so far. *)
Lemma count_loop flags n :
  n = Z.of_nat (length flags) -> n < U32.modulus ->
  forall (c fuel : nat) i P,
    (c <= fuel)%nat -> 0 <= i -> i + Z.of_nat c = n -> 0 <= P <= i ->
    for_loop fuel (fun i => i <? n) (fun i => U32.add i 1)
      (fun (i P : Z) =>
         match flags !! Z.to_nat i with
         | Some b => Done (if b : bool then U32.add P 1 else P)
         | None => Fault
         end) i P
    = Done (P + count_true (drop (Z.to_nat i) flags)).
Proof.
  intros Hlen Hn. induction c as [|c IH]; intros fuel i P Hfuel Hi Hc HP.
  - rewrite for_loop_exit by (apply Z.ltb_ge; lia).
    rewrite drop_ge by lia. unfold count_true. simpl. f_equal. lia.
  - destruct fuel as [|fuel]; [lia|].
    rewrite for_loop_step by (apply Z.ltb_lt; lia).
    destruct (lookup_lt_is_Some_2 flags (Z.to_nat i) ltac:(lia)) as [b Hb].
    rewrite Hb. rewrite (drop_S _ _ _ Hb), count_true_cons.
    rewrite (U32_add_small i 1) by lia.
    replace (S (Z.to_nat i)) with (Z.to_nat (i + 1)) by lia.
    rewrite IH; try lia.
    + f_equal. destruct b; [rewrite U32_add_small|]; lia.
    + destruct b; [rewrite U32_add_small|]; lia.
Qed.

(** C7: for a flag buffer of [n] entries the reduction of [main] returns
    the number of [true] entries and the reported estimate is the binary32
    quotient of [4.f * count] by [n]; for the four points (0,0), (1,0),
    (2,0), (0.5,0.5) and radius 1 the kernel leaves the flags
    [true; true; false; true], the count is 3 and the estimate is 3.0. *)
Theorem reduction_counts_true_flags (flags flags0 : list bool) (n : Z) :
  n = Z.of_nat (length flags) -> U32.in_range n -> length flags0 = 4%nat ->
  count_inside (Z.to_nat n) flags n = Done (count_true flags) /\
  compute_pi_on_host (Z.to_nat n) flags n
  = Done (F32.div (F32.mul (F32.lit 4 0) (F32.of_uint32 (count_true flags)))
                  (F32.of_uint32 n)) /\
  (let r := F32.lit 1 0 in
   let xs := [F32.lit 0 0; F32.lit 1 0; F32.lit 2 0; F32.lit 1 (-1)] in
   let ys := [F32.lit 0 0; F32.lit 0 0; F32.lit 0 0; F32.lit 1 (-1)] in
   launch (PixelFinderKernelOnePointPerThreadSimplified (classify r))
     (grid 4 1) (mkPoints xs ys flags0)
   = Done (mkPoints xs ys [true; true; false; true]) /\
   count_inside 4 [true; true; false; true] 4 = Done 3 /\
   estimate 3 4 = S754_finite false 12582912 (-22) /\
   main_pipeline 4 4 r xs ys flags0 = Done (S754_finite false 12582912 (-22))).
Proof.
  intros Hlen [Hn0 Hn] Hlen0.
  assert (count_inside (Z.to_nat n) flags n = Done (count_true flags)) as Hc.
  { unfold count_inside.
    rewrite (count_loop flags n Hlen Hn (Z.to_nat n)); try lia.
    by rewrite drop_0. }
  split; [done|split].
  - unfold compute_pi_on_host. by rewrite Hc.
  - destruct flags0 as [|b0 [|b1 [|b2 [|b3 [|]]]]]; try discriminate Hlen0.
    by vm_compute.
Qed.

Lemma reduction_counts_true_flags_witness :
  count_inside 3 [true; false; true] 3 = Done 2 /\
  main_pipeline 4 4 (F32.lit 1 0)
    [F32.lit 0 0; F32.lit 1 0; F32.lit 2 0; F32.lit 1 (-1)]
    [F32.lit 0 0; F32.lit 0 0; F32.lit 0 0; F32.lit 1 (-1)]
    [false; false; false; false]
  = Done (S754_finite false 12582912 (-22)).
Proof.
  assert (U32.in_range 3) as Hr by u32.
  destruct (reduction_counts_true_flags [true; false; true]
              [false; false; false; false] 3 eq_refl Hr eq_refl)
    as (H1 & _ & _ & _ & _ & H4).
  split; [exact H1 | exact H4].
Defined.

(** C8, as the code has it: for the problem size 0 the reduction returns
    the count 0, whatever the buffer; nothing rejects the size and the
    estimate [4.f * 0 / 0] is computed, a binary32 division of zero by zero
    whose result is NaN; the size compiled into [main], 10000, converts to
    a nonzero divisor. *)
Theorem empty_problem_estimate fuel (flags : list bool) :
  count_inside fuel flags 0 = Done 0 /\
  compute_pi_on_host fuel flags 0 = Done S754_nan /\
  F32.of_uint32 10000 = S754_finite false 10240000 (-10).
Proof.
  split_and!.
  - unfold count_inside. by apply for_loop_exit.
  - unfold compute_pi_on_host, count_inside. by rewrite for_loop_exit.
  - reflexivity.
Qed.

(** C8 as stated fails: for the problem size 0 the host code is not
    stopped before the estimate; it divides by the float 0 and reports
    NaN. *)
Lemma empty_problem_divides_by_zero :
  F32.of_uint32 0 = S754_zero false /\
  estimate 0 0 = F32.div (S754_zero false) (S754_zero false) /\
  compute_pi_on_host 0 [] 0 = Done S754_nan /\
  main_pipeline 0 0 (F32.lit 10 0) [] [] [] = Done S754_nan.
Proof. by vm_compute. Qed.

(** * Rounding in binary32

    Facts about the executable IEEE-754 specification at precision 24 and
    maximal exponent 128, up to: the square root of the rounded square of a
    normal number is that number. *)

Lemma digits2_pos_bounds (p : positive) :
  2 ^ (Z.pos (digits2_pos p) - 1) <= Z.pos p < 2 ^ Z.pos (digits2_pos p).
Proof.
  induction p as [p IH|p IH|]; simpl digits2_pos.
  - rewrite Pos2Z.inj_succ. replace (Z.succ (Z.pos (digits2_pos p)) - 1)
      with (Z.succ (Z.pos (digits2_pos p) - 1)) by lia.
    rewrite !Z.pow_succ_r by lia. lia.
  - rewrite Pos2Z.inj_succ. replace (Z.succ (Z.pos (digits2_pos p)) - 1)
      with (Z.succ (Z.pos (digits2_pos p) - 1)) by lia.
    rewrite !Z.pow_succ_r by lia. lia.
  - simpl. lia.
Qed.

Lemma digits2_pos_unique (p : positive) (d : Z) :
  2 ^ (d - 1) <= Z.pos p < 2 ^ d -> Z.pos (digits2_pos p) = d.
Proof.
  intros [Hlo Hhi]. pose proof (digits2_pos_bounds p) as [Hlo' Hhi'].
  assert (0 < d).
  { destruct (decide (0 < d)); [done|]. 
    assert (2 ^ d <= 1); [|lia].
    destruct (decide (d = 0)) as [->|]; [simpl; lia|].
    rewrite Z.pow_neg_r; lia. }
  destruct (Z.lt_trichotomy (Z.pos (digits2_pos p)) d) as [Hlt | [Heq | Hgt]]; [|done|].
  - assert (2 ^ Z.pos (digits2_pos p) <= 2 ^ (d - 1)) by (apply Z.pow_le_mono_r; lia). lia.
  - assert (2 ^ d <= 2 ^ (Z.pos (digits2_pos p) - 1)) by (apply Z.pow_le_mono_r; lia). lia.
Qed.

(** One step of the shifter on a non-negative significand. *)
Lemma shr_1_nonneg m r s :
  0 <= m ->
  shr_1 (Build_shr_record m r s) = Build_shr_record (m / 2) (Z.odd m) (r || s).
Proof.
  intros Hm. destruct m as [|p|p]; [done| |lia].
  destruct p as [p|p|]; simpl shr_1.
  - f_equal. rewrite Pos2Z.pos_xI. apply (Z.div_unique_pos _ 2 _ 1); lia.
  - f_equal. rewrite Pos2Z.pos_xO. apply (Z.div_unique_pos _ 2 _ 0); lia.
  - done.
Qed.

(** The shifter after [k + 1] steps from [(m, false, false)]: the bits
    shifted out are the round bit and a rest [lo], and the sticky bit is
    clear only when the rest is null. *)
Lemma shr_iter m (k : nat) :
  0 <= m ->
  exists m' r s lo,
    Nat.iter (S k) shr_1 (Build_shr_record m false false)
      = Build_shr_record m' r s /\
    0 <= m' /\ 0 <= lo < 2 ^ Z.of_nat k /\
    m = m' * 2 ^ Z.of_nat (S k) + (if r then 2 ^ Z.of_nat k else 0) + lo /\
    (s = false -> lo = 0).
Proof.
  intros Hm. induction k as [|k IH].
  - exists (m / 2), (Z.odd m), false, 0.
    change (Nat.iter 1 shr_1 ?x) with (shr_1 x).
    rewrite shr_1_nonneg by done. split_and!; try done.
    + apply Z.div_pos; lia.
    + pose proof (Z.div_mod m 2 ltac:(lia)) as Hdm.
      rewrite Zmod_odd in Hdm. change (2 ^ Z.of_nat 1) with 2.
      change (2 ^ Z.of_nat 0) with 1. destruct (Z.odd m); lia.
  - destruct IH as (m' & r & s & lo & Hit & Hm' & Hlo & Heq & Hs).
    exists (m' / 2), (Z.odd m'), (r || s), ((if r then 2 ^ Z.of_nat k else 0) + lo).
    change (Nat.iter (S (S k)) shr_1 ?x) with (shr_1 (Nat.iter (S k) shr_1 x)).
    rewrite Hit, shr_1_nonneg by done.
    assert (2 ^ Z.of_nat (S k) = 2 * 2 ^ Z.of_nat k) as E1
      by (rewrite Nat2Z.inj_succ, Z.pow_succ_r; lia).
    assert (2 ^ Z.of_nat (S (S k)) = 2 * 2 ^ Z.of_nat (S k)) as E2
      by (rewrite (Nat2Z.inj_succ (S k)), Z.pow_succ_r; lia).
    assert (0 < 2 ^ Z.of_nat k) by (apply Z.pow_pos_nonneg; lia).
    split_and!; try done.
    + apply Z.div_pos; lia.
    + destruct r; lia.
    + destruct r; lia.
    + pose proof (Z.div_mod m' 2 ltac:(lia)) as Hdm.
      rewrite Zmod_odd in Hdm. rewrite E2.
      destruct (Z.odd m'), r; nia.
    + intros [-> ->]%orb_false_elim. rewrite Hs by done. lia.
Qed.

Lemma round_after_shift m (k : nat) :
  0 <= m ->
  exists mr,
    round_nearest_even
      (shr_m (Nat.iter (S k) shr_1 (Build_shr_record m false false)))
      (loc_of_shr_record
         (Nat.iter (S k) shr_1 (Build_shr_record m false false))) = mr /\
    m / 2 ^ Z.of_nat (S k) <= mr <= m / 2 ^ Z.of_nat (S k) + 1 /\
    - 2 ^ Z.of_nat k <= mr * 2 ^ Z.of_nat (S k) - m <= 2 ^ Z.of_nat k.
Proof.
  intros Hm. destruct (shr_iter m k Hm) as (m' & r & s & lo & -> & Hm' & Hlo & Heq & Hs).
  assert (2 ^ Z.of_nat (S k) = 2 * 2 ^ Z.of_nat k) as E1
    by (rewrite Nat2Z.inj_succ, Z.pow_succ_r; lia).
  assert (0 < 2 ^ Z.of_nat k) by (apply Z.pow_pos_nonneg; lia).
  assert (m / 2 ^ Z.of_nat (S k) = m') as Hdiv.
  { symmetry. apply (Z.div_unique_pos m _ m' ((if r then 2 ^ Z.of_nat k else 0) + lo)).
    - destruct r; lia.
    - lia. }
  rewrite Hdiv. simpl shr_m. unfold loc_of_shr_record, round_nearest_even.
  eexists. split; [reflexivity|].
  destruct r, s; try destruct (Z.even m'); try (rewrite Hs in * by done); split; nia.
Qed.

Lemma iter_pos_nat {A : Type} (f : A -> A) (p : positive) (a : A) :
  SpecFloat.iter_pos f p a = Nat.iter (Pos.to_nat p) f a.
Proof.
  revert a. induction p as [p IH|p IH|]; intros a; simpl SpecFloat.iter_pos.
  - rewrite !IH, Pos2Nat.inj_xI, <- Nat.iter_add, <- Nat.iter_succ_r.
    f_equal. lia.
  - rewrite !IH, Pos2Nat.inj_xO, <- Nat.iter_add. f_equal. lia.
  - done.
Qed.

Lemma shr_nat mrs e (k : nat) :
  shr mrs e (Z.of_nat (S k)) = (Nat.iter (S k) shr_1 mrs, e + Z.of_nat (S k)).
Proof.
  unfold shr. change (Z.of_nat (S k)) with (Z.pos (Pos.of_succ_nat k)).
  cbv iota. by rewrite iter_pos_nat, SuccNat2Pos.id_succ.
Qed.

(** Rounding an integer significand of [24 + n] digits, [n >= 1], in the
    normal range of binary32. *)
Lemma binary_round_aux_normal (mm : positive) (ee : Z) (k : nat) :
  let n := Z.of_nat (S k) in
  Z.pos (digits2_pos mm) = 24 + n ->
  -149 <= ee + n -> ee + n <= 104 ->
  (Z.pos mm + 2 ^ Z.of_nat k < 2 ^ 24 * 2 ^ n \/ ee + n + 1 <= 104) ->
  exists M E,
    binary_round_aux 24 128 false (Z.pos mm) ee loc_Exact
      = S754_finite false M E /\
    2 ^ 23 <= Z.pos M < 2 ^ 24 /\
    (E = ee + n \/
     E = ee + n + 1 /\ 2 ^ 24 * 2 ^ n <= Z.pos mm + 2 ^ Z.of_nat k) /\
    - 2 ^ Z.of_nat k <= Z.pos M * 2 ^ (E - ee) - Z.pos mm <= 2 ^ Z.of_nat k.
Proof.
  intros n Hd Hlo Hhi Hcarry.
  pose proof (digits2_pos_bounds mm) as Hmm. rewrite Hd in Hmm.
  assert (0 < 2 ^ n) as Hn by (apply Z.pow_pos_nonneg; lia).
  assert (2 ^ (24 + n - 1) = 2 ^ 23 * 2 ^ n) as E1
    by (rewrite <- Z.pow_add_r by lia; f_equal; lia).
  assert (2 ^ (24 + n) = 2 ^ 24 * 2 ^ n) as E2
    by (rewrite <- Z.pow_add_r by lia; f_equal; lia).
  rewrite E1, E2 in Hmm.
  assert (shr_fexp 24 128 (Z.pos mm) ee loc_Exact
          = (Nat.iter (S k) shr_1 (Build_shr_record (Z.pos mm) false false),
             ee + n)) as Hshr.
  { unfold shr_fexp, Zdigits2, fexp, emin. rewrite Hd.
    replace (Z.max (24 + n + ee - 24) (3 - 128 - 24) - ee) with n by lia.
    apply shr_nat. }
  unfold binary_round_aux. rewrite Hshr.
  destruct (round_after_shift (Z.pos mm) k ltac:(lia)) as (mr & -> & Hmr & Herr).
  fold n in Hmr, Herr.
  assert (2 ^ 23 <= Z.pos mm / 2 ^ n) by (apply Z.div_le_lower_bound; lia).
  assert (Z.pos mm / 2 ^ n < 2 ^ 24) by (apply Z.div_lt_upper_bound; lia).
  destruct (decide (mr < 2 ^ 24)) as [Hlt | Hge].
  - destruct mr as [|M|M]; [lia| |lia].
    exists M, (ee + n).
    unfold shr_fexp, Zdigits2, fexp, emin.
    rewrite (digits2_pos_unique M 24) by lia.
    replace (Z.max (24 + (ee + n) - 24) (3 - 128 - 24) - (ee + n)) with 0 by lia.
    simpl shr. cbv beta iota. simpl shr_m. cbv beta iota.
    rewrite (proj2 (Z.leb_le _ _)) by lia.
    replace (ee + n - ee) with n by lia.
    split_and!; try done; try lia; by left.
  - destruct mr as [|M|M]; [lia| |lia].
    assert (Z.pos M = 2 ^ 24) as HM by lia.
    exists (2 ^ 23)%positive, (ee + n + 1).
    unfold shr_fexp, Zdigits2, fexp, emin.
    rewrite (digits2_pos_unique M 25) by (rewrite HM; done).
    replace (Z.max (25 + (ee + n) - 24) (3 - 128 - 24) - (ee + n)) with 1 by lia.
    unfold shr_record_of_loc, shr. cbv beta iota.
    change (SpecFloat.iter_pos shr_1 1 ?x) with (shr_1 x).
    rewrite shr_1_nonneg, HM by lia.
    change (2 ^ 24 / 2) with (Z.pos (2 ^ 23)). simpl shr_m. cbv beta iota.
    rewrite HM in Herr.
    rewrite (proj2 (Z.leb_le _ _)) by lia.
    replace (ee + n + 1 - ee) with (n + 1) by lia.
    rewrite Z.pow_add_r by lia. change (Z.pos (2 ^ 23)) with (2 ^ 23).
    change (2 ^ 24) with (2 ^ 23 * 2) in Herr.
    split_and!; try done; lia.
Qed.

(** The square of a normal binary32 number in [2^-63, 2^64): the rounded
    product is within [m] of the exact square of the significand. *)
Lemma mul_self_normal (m : positive) (e : Z) :
  2 ^ 23 <= Z.pos m < 2 ^ 24 -> -86 <= e <= 40 ->
  exists M E,
    SFmul 24 128 (S754_finite false m e) (S754_finite false m e)
      = S754_finite false M E /\
    2 ^ 23 <= Z.pos M < 2 ^ 24 /\
    (E = 2 * e + 23 \/ E = 2 * e + 24) /\
    Z.pos m * Z.pos m - Z.pos m < Z.pos M * 2 ^ (E - 2 * e)
      <= Z.pos m * Z.pos m + Z.pos m.
Proof.
  intros Hm He. unfold SFmul. simpl xorb.
  assert (2 ^ 46 <= Z.pos (m * m) < 2 ^ 48) as Hmm
    by (rewrite Pos2Z.inj_mul; change (2 ^ 46) with (2 ^ 23 * 2 ^ 23);
        change (2 ^ 48) with (2 ^ 24 * 2 ^ 24); nia).
  replace (e + e) with (2 * e) by lia.
  destruct (decide (Z.pos (m * m) < 2 ^ 47)) as [Hlt | Hge].
  - destruct (binary_round_aux_normal (m * m) (2 * e) 22) as (M & E & -> & HM & HE & Herr).
    + apply digits2_pos_unique. simpl Z.of_nat. lia.
    + simpl Z.of_nat. lia.
    + simpl Z.of_nat. lia.
    + right. simpl Z.of_nat. lia.
    + exists M, E. simpl Z.of_nat in *. rewrite Pos2Z.inj_mul in Herr.
      change (2 ^ 22) with 4194304 in Herr. change (2 ^ 23) with 8388608 in Hm.
      split_and!; try done; lia.
  - destruct (binary_round_aux_normal (m * m) (2 * e) 23) as (M & E & -> & HM & HE & Herr).
    + apply digits2_pos_unique. simpl Z.of_nat. lia.
    + simpl Z.of_nat. lia.
    + simpl Z.of_nat. lia.
    + left. simpl Z.of_nat. rewrite Pos2Z.inj_mul.
      change (2 ^ 24 * 2 ^ 24) with ((2 ^ 24 - 1) * (2 ^ 24 - 1) + 33554431).
      change (2 ^ 23) with 8388608. nia.
    + exists M, E. simpl Z.of_nat in *. rewrite Pos2Z.inj_mul in *.
      assert (2 ^ 23 < Z.pos m).
      { destruct (decide (2 ^ 23 < Z.pos m)); [done|].
        assert (Z.pos m * Z.pos m <= 2 ^ 23 * 2 ^ 23) by nia.
        change (2 ^ 23 * 2 ^ 23) with (2 ^ 46) in *. lia. }
      destruct HE as [-> | [-> Hc]].
      * split_and!; try done; lia.
      * exfalso.
        assert (Z.pos m * Z.pos m <= (2 ^ 24 - 1) * (2 ^ 24 - 1)) by nia.
        change ((2 ^ 24 - 1) * (2 ^ 24 - 1)) with (2 ^ 24 * 2 ^ 24 - 33554431) in *.
        change (2 ^ 23) with 8388608 in Hc. lia.
Qed.

Lemma sqrt_core (M : positive) (e s : Z) :
  2 ^ 23 <= Z.pos M < 2 ^ 24 -> -149 <= e -> s = 23 \/ s = 24 ->
  SFsqrt_core_binary 24 128 (Z.pos M) (2 * e + s)
  = (let (q, r) := Z.sqrtrem (Z.pos M * 2 ^ s) in
     (q, e, if r =? 0 then loc_Exact
            else loc_Inexact (if r <=? q then Lt else Gt))).
Proof.
  intros HM He Hs. unfold SFsqrt_core_binary, Zdigits2, fexp, emin.
  rewrite (digits2_pos_unique M 24) by lia.
  rewrite !Z.div2_div.
  assert ((24 + (2 * e + s) + 1) / 2 = e + 24) as ->.
  { symmetry. destruct Hs as [-> | ->].
    - apply (Z.div_unique_pos _ 2 _ 0); lia.
    - apply (Z.div_unique_pos _ 2 _ 1); lia. }
  assert (e <= (2 * e + s) / 2) by (apply Z.div_le_lower_bound; lia).
  replace (Z.min (Z.max (e + 24 - 24) (3 - 128 - 24)) ((2 * e + s) / 2))
    with e by lia.
  replace (2 * e + s - 2 * e) with s by lia.
  destruct Hs as [-> | ->]; cbv iota; rewrite Z.shiftl_mul_pow2 by lia; done.
Qed.

Lemma shr_nonpos mrs e n : n <= 0 -> shr mrs e n = (mrs, e).
Proof. intros Hn. destruct n; [done|lia|done]. Qed.

Lemma shr_record_of_loc_m q l : shr_m (shr_record_of_loc q l) = q.
Proof. by destruct l as [|[]]. Qed.

Lemma loc_of_shr_record_of_loc q l :
  loc_of_shr_record (shr_record_of_loc q l) = l.
Proof. by destruct l as [|[]]. Qed.

(** Rounding a significand that needs no shift: the result is the rounded
    significand at the same exponent. *)
Lemma binary_round_aux_in_place (q : Z) l (m : positive) (e : Z) :
  0 <= q -> Zdigits2 q <= 24 ->
  round_nearest_even q l = Z.pos m ->
  2 ^ 23 <= Z.pos m < 2 ^ 24 -> -149 <= e <= 104 ->
  binary_round_aux 24 128 false q e l = S754_finite false m e.
Proof.
  intros Hq Hd Hr Hm He. unfold binary_round_aux.
  assert (shr_fexp 24 128 q e l = (shr_record_of_loc q l, e)) as ->.
  { unfold shr_fexp. apply shr_nonpos. unfold fexp, emin. lia. }
  rewrite shr_record_of_loc_m, loc_of_shr_record_of_loc, Hr.
  assert (shr_fexp 24 128 (Z.pos m) e loc_Exact
          = (shr_record_of_loc (Z.pos m) loc_Exact, e)) as ->.
  { unfold shr_fexp. apply shr_nonpos. unfold fexp, emin, Zdigits2.
    rewrite (digits2_pos_unique m 24) by lia. lia. }
  simpl shr_m. cbv iota. by rewrite (proj2 (Z.leb_le _ _)) by lia.
Qed.

(** The binary32 square root of a rounded square is the number squared. *)
Lemma sqrt_of_rounded_square (m M : positive) (e E : Z) :
  2 ^ 23 <= Z.pos m < 2 ^ 24 -> 2 ^ 23 <= Z.pos M < 2 ^ 24 ->
  -149 <= e <= 104 ->
  E = 2 * e + 23 \/ E = 2 * e + 24 ->
  Z.pos m * Z.pos m - Z.pos m < Z.pos M * 2 ^ (E - 2 * e)
    <= Z.pos m * Z.pos m + Z.pos m ->
  SFsqrt 24 128 (S754_finite false M E) = S754_finite false m e.
Proof.
  intros Hm HM He HE HV. unfold SFsqrt.
  assert (exists s, E = 2 * e + s /\ (s = 23 \/ s = 24)) as (s & -> & Hs)
    by (destruct HE; eauto).
  replace (2 * e + s - 2 * e) with s in HV by lia.
  rewrite sqrt_core by (done || lia).
  assert (0 <= Z.pos M * 2 ^ s) as Hpos by (destruct Hs as [-> | ->]; lia).
  pose proof (Z.sqrtrem_spec _ Hpos) as Hspec.
  destruct (Z.sqrtrem (Z.pos M * 2 ^ s)) as [q r].
  destruct Hspec as [Heq Hr].
  assert (0 <= q) by nia.
  destruct (decide (Z.pos m * Z.pos m <= Z.pos M * 2 ^ s)) as [Hge | Hlt].
  - assert (q = Z.pos m) as -> by nia.
    apply binary_round_aux_in_place; try done; try lia.
    + unfold Zdigits2. rewrite (digits2_pos_unique m 24); lia.
    + destruct (r =? 0) eqn:E0; [done|].
      rewrite (proj2 (Z.leb_le r (Z.pos m))) by lia. done.
  - assert (q = Z.pos m - 1) as -> by nia.
    apply binary_round_aux_in_place; try done; try lia.
    + destruct (Z.pos m - 1) as [|q|q] eqn:Eq; [done| |lia].
      unfold Zdigits2. pose proof (digits2_pos_bounds q) as [Hlo _].
      destruct (decide (Z.pos (digits2_pos q) <= 24)) as [|Hgt]; [done|].
      assert (2 ^ 24 <= 2 ^ (Z.pos (digits2_pos q) - 1))
        by (apply Z.pow_le_mono_r; lia). lia.
    + rewrite (proj2 (Z.eqb_neq r 0)) by lia.
      rewrite (proj2 (Z.leb_gt r (Z.pos m - 1))) by lia.
      simpl round_nearest_even. lia.
Qed.

(** For a positive normal binary32 number [r] with [2^-63 <= r < 2^64]
    the computed distance of the point [(r, 0)] is [r]. *)
Lemma distance_on_axis (m : positive) (e : Z) (s : bool) :
  2 ^ 23 <= Z.pos m < 2 ^ 24 -> -86 <= e <= 40 ->
  distance (S754_finite false m e) (S754_zero s) = S754_finite false m e.
Proof.
  intros Hm He.
  destruct (mul_self_normal m e Hm He) as (M & E & HMul & HM & HE & HV).
  unfold distance, F32.sqrt, F32.add, F32.mul, F32.prec, F32.emax.
  rewrite HMul. simpl SFmul. unfold SFadd.
  apply sqrt_of_rounded_square; try done. lia.
Qed.

(** * The classifier *)


Lemma SFcompare_refl (f : F32.float) :
  F32.is_nan f = false -> SFcompare f f = Some Eq.
Proof.
  destruct f as [s|s| |s m e]; simpl; try done.
  - by destruct s.
  - intros _. rewrite Z.compare_refl, Pos.compare_cont_refl. by destruct s.
Qed.

Lemma leb_refl (f : F32.float) : F32.is_nan f = false -> F32.leb f f = true.
Proof. intros H. unfold F32.leb, SFleb. by rewrite SFcompare_refl. Qed.

(** C6 as stated fails when [x * x] overflows: for the radius [2^64] the
    point [(r, 0)], at distance [r] from the origin, has the computed
    distance [+inf] and is classified as outside. *)
Lemma boundary_point_outside_on_overflow :
  let r := F32.lit 1 64 in
  let zero := S754_zero false in
  r = S754_finite false 8388608 41 /\
  F32.valid r = true /\
  F32.mul r r = S754_infinity false /\
  distance r zero = S754_infinity false /\
  processPoint (mkPoints [r] [zero] [true]) r 0
  = Done (mkPoints [r] [zero] [false]).
Proof. by vm_compute. Qed.

(** C6, as the code has it: the classifier sets the flag of a point
    [(x, y)] to true exactly when the binary32 value of
    [sqrt (x * x + y * y)] is at most the radius [r]; a point whose
    computed distance is [r] itself is classified as inside, so the disk is
    closed; and the point [(r, 0)] is classified as inside for every
    positive normal radius with [2^-63 <= r < 2^64], whose square neither
    overflows nor leaves the normal range. *)
Theorem classifier_closed_disk (pts pts' : Points) (r px py : F32.float)
    (idx : Z) (m : positive) (e : Z) (s : bool) :
  x pts !! Z.to_nat idx = Some px ->
  y pts !! Z.to_nat idx = Some py ->
  processPoint pts r idx = Done pts' ->
  (inside pts' !! Z.to_nat idx = Some true <->
   F32.leb (F32.sqrt (F32.add (F32.mul px px) (F32.mul py py))) r = true) /\
  (F32.is_nan r = false -> distance px py = r ->
   inside pts' !! Z.to_nat idx = Some true) /\
  (2 ^ 23 <= Z.pos m < 2 ^ 24 -> -86 <= e <= 40 ->
   r = S754_finite false m e -> px = r -> py = S754_zero s ->
   inside pts' !! Z.to_nat idx = Some true).
Proof.
  intros Hx Hy Hrun.
  assert (inside pts' !! Z.to_nat idx = Some (F32.leb (distance px py) r))
    as Hflag.
  { unfold processPoint in Hrun. rewrite Hx, Hy in Hrun.
    destruct (decide _) as [Hlt|]; [|done]. inversion Hrun; subst. simpl.
    by apply list_lookup_insert_eq. }
  split_and!.
  - rewrite Hflag. unfold distance. split; [by intros [= ->]|by intros ->].
  - intros Hnan Hd. rewrite Hflag, Hd. f_equal. by apply leb_refl.
  - intros Hm He -> -> ->. rewrite Hflag, distance_on_axis by done.
    f_equal. by apply leb_refl.
Qed.

Lemma classifier_closed_disk_witness :
  let r := S754_finite false 10485760 (-20) in
  let pts := mkPoints [r] [S754_zero false] [false] in
  let pts' := mkPoints [r] [S754_zero false] [true] in
  r = F32.lit 10 0 /\ processPoint pts r 0 = Done pts' /\
  inside pts' !! Z.to_nat 0 = Some true.
Proof.
  intros r pts pts'.
  assert (processPoint pts r 0 = Done pts') as Hrun by reflexivity.
  split_and!; [reflexivity|exact Hrun|].
  refine (proj2 (proj2 (classifier_closed_disk pts pts' r r (S754_zero false)
                          0 10485760 (-20) false eq_refl eq_refl Hrun))
            _ _ eq_refl eq_refl eq_refl); lia.
Defined.

(** * What a launch computes *)

Lemma processPoint_in_bounds pts r idx pts' :
  processPoint pts r idx = Done pts' ->
  (Z.to_nat idx < length (inside pts))%nat.
Proof.
  unfold processPoint. intros H.
  destruct (x pts !! Z.to_nat idx); [|done].
  destruct (y pts !! Z.to_nat idx); [|done].
  by destruct (decide _).
Qed.

Lemma processPoint_not_out_of_fuel pts r idx pts' :
  processPoint pts r idx <> OutOfFuel pts'.
Proof.
  unfold processPoint.
  destruct (x pts !! Z.to_nat idx); [|done].
  destruct (y pts !! Z.to_nat idx); [|done].
  by destruct (decide _).
Qed.

Lemma processed_refl r pts0 : processed r pts0 [] pts0.
Proof.
  split_and!; try done. intros j. split; [|done]. by intros ?%elem_of_nil.
Qed.

Lemma processed_buffers_hold r n pts0 calls pts :
  processed r pts0 calls pts -> buffers_hold n pts0 -> buffers_hold n pts.
Proof.
  intros (Hx & Hy & Hl & _) (? & ? & ?). unfold buffers_hold.
  by rewrite Hx, Hy, Hl.
Qed.

(** One call of the classifier keeps the buffers [processed]. *)
Lemma classify_processed pts0 r idx pts calls :
  0 <= idx -> processed r pts0 calls pts ->
  result_rel (fun pts calls => processed r pts0 calls pts)
    (classify r idx pts) (log_call idx calls).
Proof.
  intros Hidx (Hx & Hy & Hlen & Hin). unfold classify, log_call.
  destruct (processPoint pts r idx) as [pts'|pts'|] eqn:Hp; simpl; [| |done].
  - pose proof (processPoint_in_bounds _ _ _ _ Hp) as Hb.
    apply processPoint_writes in Hp as (px & py & Hpx & Hpy & Hx' & Hy' & Hi').
    split_and!; [congruence..| |].
    + by rewrite Hi', length_insert.
    + intros j. rewrite Hi'. destruct (decide (j = Z.to_nat idx)) as [-> | Hne].
      * split.
        -- intros _. rewrite list_lookup_insert_eq by done.
           unfold flag_of. by rewrite <- Hx, <- Hy, Hpx, Hpy.
        -- intros Hn. exfalso. apply Hn, elem_of_app. right.
           apply list_elem_of_singleton. lia.
      * rewrite list_lookup_insert_ne by done. split.
        -- intros [Hj | Hj%list_elem_of_singleton]%elem_of_app; [|lia].
           by apply Hin.
        -- intros [Hj _]%not_elem_of_app. by apply Hin.
  - by apply processPoint_not_out_of_fuel in Hp.
Qed.

(** Buffers [processed] at exactly the indices below [n] are the
    [classified] buffers. *)
Lemma processed_all r n pts0 calls pts :
  0 <= n -> buffers_hold n pts0 ->
  (forall j, j ∈ calls <-> 0 <= j < n) ->
  processed r pts0 calls pts -> pts = classified r n pts0.
Proof.
  intros Hn (Hbx & Hby & Hbi) Hcalls (Hx & Hy & Hlen & Hin).
  destruct pts as [xs ys fl]. simpl in *. subst xs ys.
  unfold classified. f_equal. apply list_eq. intros j.
  assert (length (take (Z.to_nat n) (flags_of r (x pts0) (y pts0)))
          = Z.to_nat n) as Htake.
  { rewrite length_take. unfold flags_of. rewrite length_zip_with. lia. }
  destruct (decide (Z.of_nat j < n)) as [Hlt | Hge].
  - rewrite (proj1 (Hin j)) by (apply Hcalls; lia).
    rewrite lookup_app_l by lia. rewrite lookup_take_lt by lia.
    unfold flags_of, flag_of. rewrite lookup_zip_with.
    destruct (x pts0 !! j); [|done]. simpl. by destruct (y pts0 !! j).
  - rewrite (proj2 (Hin j)) by (rewrite Hcalls; lia).
    rewrite lookup_app_r by lia. rewrite Htake, lookup_drop.
    f_equal. lia.
Qed.

(** The log of a launch whose workers append their calls. *)
Lemma launch_log (Klog : Acc -> list Z -> result (list Z))
    (c : Acc -> list Z) ws :
  (forall acc l, acc ∈ ws -> Klog acc l = Done (l ++ c acc)) ->
  forall l, launch Klog ws l = Done (l ++ concat (c <$> ws)).
Proof.
  induction ws as [|acc ws IH]; intros HK l; simpl.
  - by rewrite app_nil_r.
  - rewrite HK by left. rewrite IH by (intros; apply HK; by right).
    by rewrite app_assoc.
Qed.

Lemma elem_of_concat_fmap (c : Acc -> list Z) ws j :
  j ∈ concat (c <$> ws) <-> exists acc, acc ∈ ws /\ j ∈ c acc.
Proof.
  induction ws as [|acc ws IH]; simpl.
  - split; [by intros ?%elem_of_nil | by intros (? & ?%elem_of_nil & _)].
  - rewrite elem_of_app, IH. split.
    + intros [H | (a & Ha & H)]; [exists acc | exists a]; split; auto;
        by constructor.
    + intros (a & [-> | Ha]%elem_of_cons & H); eauto.
Qed.

Lemma elem_of_grid T k acc :
  acc ∈ grid T k <-> exists i, 0 <= i < T /\ acc = mkAcc i T k.
Proof.
  unfold grid. rewrite list_elem_of_fmap. split.
  - intros (i & -> & Hi%elem_of_seqZ). exists i. split; [lia|done].
  - intros (i & Hi & ->). exists i. split; [done|]. apply elem_of_seqZ. lia.
Qed.

(** A launch of a kernel that is generic in its classifier, appends a
    known list of calls per worker and does not fault on buffers of [n]
    elements: it finishes, with the buffers [processed] at the calls of all
    workers. *)
Lemma launch_processed r n (Kmem : Acc -> Points -> result Points)
    (Klog : Acc -> list Z -> result (list Z)) (c : Acc -> list Z) ws pts0 :
  (forall (R : Points -> list Z -> Prop),
     (forall idx a b, 0 <= idx -> R a b ->
        result_rel R (classify r idx a) (log_call idx b)) ->
     forall acc a b, acc ∈ ws -> R a b ->
       result_rel R (Kmem acc a) (Klog acc b)) ->
  (forall acc l, acc ∈ ws -> Klog acc l = Done (l ++ c acc)) ->
  (forall acc pts, acc ∈ ws -> buffers_hold n pts -> Kmem acc pts <> Fault) ->
  buffers_hold n pts0 ->
  exists pts,
    launch Kmem ws pts0 = Done pts /\
    processed r pts0 (concat (c <$> ws)) pts.
Proof.
  intros Hrel Hlog Hsafe Hb.
  pose proof (launch_rel (fun p l => processed r pts0 l p) Kmem Klog ws
                (fun acc a b Hin HR =>
                   Hrel _ (fun idx a b Hi HR' =>
                             classify_processed pts0 r idx a b Hi HR')
                     acc a b Hin HR)
                pts0 [] (processed_refl r pts0)) as Hl.
  rewrite (launch_log Klog c ws Hlog []) in Hl. simpl in Hl.
  assert (launch Kmem ws pts0 <> Fault) as Hnf.
  { apply (launch_no_fault n); [|done].
    intros acc pts Hin Hp. split; [by apply Hsafe|].
    intros pts' E.
    pose proof (Hrel (fun p l => processed r pts l p)
                  (fun idx a b Hi HR' => classify_processed pts r idx a b Hi HR')
                  acc pts [] Hin (processed_refl r pts)) as Hk.
    rewrite E, (Hlog acc [] Hin) in Hk. simpl in Hk.
    by eapply processed_buffers_hold. }
  destruct (launch Kmem ws pts0) as [pts|pts|]; try done. eauto.
Qed.

(** X1: a launch of the Strided kernel over the [T >= 1] workers of a grid,
    run in any order, on buffers of at least [n] elements with
    [n + T <= 2^32] and fuel for [ceil (n / T)] iterations per worker,
    finishes and leaves the coordinates as they were, the flag of every
    point below [n] equal to [sqrt (x * x + y * y) <= r] and the flags
    from [n] on untouched. *)
Theorem Strided_launch_classifies r n T k fuel ws pts0 :
  0 < T -> 0 <= n -> n + T <= U32.modulus ->
  ws ≡ₚ grid T k -> buffers_hold n pts0 ->
  (Z.to_nat (ceil_div n T) <= fuel)%nat ->
  launch (fun acc => PixelFinderKernelMultiplePointsPerThread (classify r)
                       fuel acc n) ws pts0
  = Done (classified r n pts0).
Proof.
  intros HT Hn Hsum Hperm Hb Hfuel.
  assert (forall acc, acc ∈ ws -> exists i, 0 <= i < T /\ acc = mkAcc i T k)
    as Hws by (intros acc Hin; rewrite Hperm in Hin; by apply elem_of_grid).
  destruct (launch_processed r n
              (fun acc => PixelFinderKernelMultiplePointsPerThread (classify r)
                            fuel acc n)
              (fun acc => PixelFinderKernelMultiplePointsPerThread log_call
                            fuel acc n)
              (fun acc => Strided_spec n (getWorkDiv_Grid_Threads acc)
                            (getIdx_Grid_Threads acc)) ws pts0)
    as (pts & -> & Hp); try done.
  - intros R HR acc a b Hin Hab. destruct (Hws acc Hin) as (i & Hi & ->).
    apply Strided_rel; simpl; auto; lia.
  - intros acc l Hin. destruct (Hws acc Hin) as (i & Hi & ->). simpl.
    rewrite Strided_kernel_run_seq; [apply run_seq_log|u32|done|intros; lia|].
    pose proof (iterations_le_ceil n T i HT). lia.
  - intros acc pts Hin Hpts. destruct (Hws acc Hin) as (i & Hi & ->).
    apply Strided_no_fault; simpl; [lia|done].
  - f_equal. eapply (processed_all r n pts0); [done..| |exact Hp].
    intros j. rewrite elem_of_concat_fmap. split.
    + intros (acc & Hin & Hj). destruct (Hws acc Hin) as (i & Hi & ->).
      simpl in Hj. by apply elem_of_Strided_spec in Hj as [? _].
    + intros Hj. exists (mkAcc (j mod T) T k). split.
      * rewrite Hperm. apply elem_of_grid. exists (j mod T).
        split; [by apply Z.mod_pos_bound|done].
      * simpl. apply elem_of_Strided_spec; [by apply Z.mod_pos_bound|done].
Qed.

Lemma Strided_launch_classifies_witness :
  launch (fun acc => PixelFinderKernelMultiplePointsPerThread
                       (classify (F32.lit 1 0)) 2 acc 3)
    [mkAcc 1 2 1; mkAcc 0 2 1]
    (mkPoints [F32.lit 0 0; F32.lit 1 0; F32.lit 2 0]
              [F32.lit 0 0; F32.lit 0 0; F32.lit 0 0] [false; false; true])
  = Done (mkPoints [F32.lit 0 0; F32.lit 1 0; F32.lit 2 0]
                   [F32.lit 0 0; F32.lit 0 0; F32.lit 0 0]
                   [true; true; false]).
Proof.
  apply (Strided_launch_classifies (F32.lit 1 0) 3 2 1 2
           [mkAcc 1 2 1; mkAcc 0 2 1]).
  - lia.
  - lia.
  - u32.
  - apply Permutation_swap.
  - unfold buffers_hold. simpl. lia.
  - vm_compute. lia.
Defined.

(** X2: a launch of the StridedBlocked kernel over the [T >= 1] workers of
    a grid with [k >= 1] elements per thread, run in any order, on buffers
    of at least [n] elements with [n + T * k <= 2^32] and enough fuel,
    finishes and leaves the flag of every point below [n] equal to
    [sqrt (x * x + y * y) <= r], the coordinates and the other flags as
    they were. *)
Theorem StridedBlocked_launch_classifies r n T k fuel fuel_in ws pts0 :
  0 < T -> 0 < k -> 0 <= n -> n + T * k <= U32.modulus ->
  ws ≡ₚ grid T k -> buffers_hold n pts0 ->
  (Z.to_nat (ceil_div n (T * k)) <= fuel)%nat -> (Z.to_nat k <= fuel_in)%nat ->
  launch (fun acc => PixelFinderKernelMultiplePointsPerThreadElements
                       (classify r) fuel fuel_in acc n) ws pts0
  = Done (classified r n pts0).
Proof.
  intros HT Hk Hn Hsum Hperm Hb Hfuel Hfuel_in.
  assert (forall acc, acc ∈ ws -> exists i, 0 <= i < T /\ acc = mkAcc i T k)
    as Hws by (intros acc Hin; rewrite Hperm in Hin; by apply elem_of_grid).
  destruct (launch_processed r n
              (fun acc => PixelFinderKernelMultiplePointsPerThreadElements
                            (classify r) fuel fuel_in acc n)
              (fun acc => PixelFinderKernelMultiplePointsPerThreadElements
                            log_call fuel fuel_in acc n)
              (fun acc => StridedBlocked_spec n (getWorkDiv_Grid_Threads acc)
                            (getWorkDiv_Thread_Elems acc)
                            (getIdx_Grid_Threads acc)) ws pts0)
    as (pts & -> & Hp); try done.
  - intros R HR acc a b Hin Hab. by apply StridedBlocked_rel.
  - intros acc l Hin. destruct (Hws acc Hin) as (i & Hi & ->). simpl.
    rewrite StridedBlocked_kernel_spec; [apply run_seq_log|done..| |done].
    assert (0 < T * k) by (apply Z.mul_pos_pos; lia).
    assert (0 <= i * k) by (apply Z.mul_nonneg_nonneg; lia).
    pose proof (iterations_le_ceil n (T * k) (i * k)). lia.
  - intros acc pts Hin Hpts. by apply StridedBlocked_no_fault.
  - f_equal. eapply (processed_all r n pts0); [done..| |exact Hp].
    intros j. rewrite elem_of_concat_fmap. split.
    + intros (acc & Hin & Hj). destruct (Hws acc Hin) as (i & Hi & ->).
      simpl in Hj. by apply elem_of_StridedBlocked_spec in Hj as [? _].
    + intros Hj. exists (mkAcc ((j / k) mod T) T k). split.
      * rewrite Hperm. apply elem_of_grid. exists ((j / k) mod T).
        split; [by apply Z.mod_pos_bound|done].
      * simpl. apply elem_of_StridedBlocked_spec;
          [by apply Z.mod_pos_bound|done..].
Qed.

Lemma StridedBlocked_launch_classifies_witness :
  launch (fun acc => PixelFinderKernelMultiplePointsPerThreadElements
                       (classify (F32.lit 1 0)) 1 2 acc 3)
    [mkAcc 1 2 2; mkAcc 0 2 2]
    (mkPoints [F32.lit 0 0; F32.lit 1 0; F32.lit 2 0]
              [F32.lit 0 0; F32.lit 0 0; F32.lit 0 0] [false; false; true])
  = Done (mkPoints [F32.lit 0 0; F32.lit 1 0; F32.lit 2 0]
                   [F32.lit 0 0; F32.lit 0 0; F32.lit 0 0]
                   [true; true; false]).
Proof.
  apply (StridedBlocked_launch_classifies (F32.lit 1 0) 3 2 2 1 2
           [mkAcc 1 2 2; mkAcc 0 2 2]).
  - lia.
  - lia.
  - lia.
  - u32.
  - apply Permutation_swap.
  - unfold buffers_hold. simpl. lia.
  - vm_compute. lia.
  - vm_compute. lia.
Defined.

(** X3: a launch of the Bounded kernel over the [T] workers of a grid, run
    in any order, classifies the first [min T n] points and nothing else:
    all [n] points when there are at least [n] workers, and with fewer
    workers it leaves the flags from [T] on as they were, without any
    error. *)
Theorem Bounded_launch_classifies r n T k ws pts0 :
  0 <= n -> 0 <= T ->
  ws ≡ₚ grid T k -> buffers_hold (Z.min T n) pts0 ->
  launch (fun acc => PixelFinderKernelOnePointPerThread (classify r) acc n)
    ws pts0
  = Done (classified r (Z.min T n) pts0).
Proof.
  intros Hn HT Hperm Hb.
  assert (forall acc, acc ∈ ws -> exists i, 0 <= i < T /\ acc = mkAcc i T k)
    as Hws by (intros acc Hin; rewrite Hperm in Hin; by apply elem_of_grid).
  destruct (launch_processed r (Z.min T n)
              (fun acc => PixelFinderKernelOnePointPerThread (classify r) acc n)
              (fun acc => PixelFinderKernelOnePointPerThread log_call acc n)
              (fun acc => if getIdx_Grid_Threads acc <? n
                          then [getIdx_Grid_Threads acc] else []) ws pts0)
    as (pts & -> & Hp); try done.
  - intros R HR acc a b Hin Hab. destruct (Hws acc Hin) as (i & Hi & ->).
    apply Bounded_rel; simpl; auto; lia.
  - intros acc l Hin. unfold PixelFinderKernelOnePointPerThread.
    destruct (_ <? n); [done|by rewrite app_nil_r].
  - intros acc pts Hin Hpts. destruct (Hws acc Hin) as (i & Hi & ->).
    unfold PixelFinderKernelOnePointPerThread. simpl.
    destruct (i <? n) eqn:Hc; [|done]. apply Z.ltb_lt in Hc.
    apply (classify_no_fault r (Z.min T n)); [lia|done].
  - f_equal. eapply (processed_all r (Z.min T n) pts0); [lia|done| |exact Hp].
    intros j. rewrite elem_of_concat_fmap. split.
    + intros (acc & Hin & Hj). destruct (Hws acc Hin) as (i & Hi & ->).
      simpl in Hj. destruct (i <? n) eqn:Hc; [|by apply elem_of_nil in Hj].
      apply Z.ltb_lt in Hc. apply list_elem_of_singleton in Hj. lia.
    + intros Hj. exists (mkAcc j T k). split.
      * rewrite Hperm. apply elem_of_grid. exists j. split; [lia|done].
      * simpl. rewrite (proj2 (Z.ltb_lt j n)) by lia. by left.
Qed.

Lemma Bounded_launch_classifies_witness :
  launch (fun acc => PixelFinderKernelOnePointPerThread
                       (classify (F32.lit 1 0)) acc 3)
    [mkAcc 1 2 1; mkAcc 0 2 1]
    (mkPoints [F32.lit 0 0; F32.lit 1 0; F32.lit 2 0]
              [F32.lit 0 0; F32.lit 0 0; F32.lit 0 0] [false; false; true])
  = Done (mkPoints [F32.lit 0 0; F32.lit 1 0; F32.lit 2 0]
                   [F32.lit 0 0; F32.lit 0 0; F32.lit 0 0]
                   [true; true; true]).
Proof.
  apply (Bounded_launch_classifies (F32.lit 1 0) 3 2 1
           [mkAcc 1 2 1; mkAcc 0 2 1]).
  - lia.
  - lia.
  - apply Permutation_swap.
  - unfold buffers_hold. simpl. lia.
Defined.

(** X4: a launch of the Exact kernel of the homework, or of the kernel of
    lessons 24 and 25, over the [T] workers of a grid, run in any order, on
    buffers of at least [T] elements classifies exactly the first [T]
    points: every point when [T] is the number of points, and the flags
    from [T] on stay as they were when there are more points than
    workers. *)
Theorem Exact_launch_classifies r T k ws pts0 :
  0 <= T -> ws ≡ₚ grid T k -> buffers_hold T pts0 ->
  launch (PixelFinderKernelOnePointPerThreadSimplified (classify r)) ws pts0
  = Done (classified r T pts0) /\
  launch (fun acc pts => PixelFinderKernel acc pts r) ws pts0
  = Done (classified r T pts0).
Proof.
  intros HT Hperm Hb.
  assert (forall acc, acc ∈ ws -> exists i, 0 <= i < T /\ acc = mkAcc i T k)
    as Hws by (intros acc Hin; rewrite Hperm in Hin; by apply elem_of_grid).
  assert (launch (PixelFinderKernelOnePointPerThreadSimplified (classify r))
            ws pts0 = Done (classified r T pts0)) as Hl; [|by split].
  destruct (launch_processed r T
              (PixelFinderKernelOnePointPerThreadSimplified (classify r))
              (PixelFinderKernelOnePointPerThreadSimplified log_call)
              (fun acc => [getIdx_Grid_Threads acc]) ws pts0)
    as (pts & -> & Hp); try done.
  - intros R HR acc a b Hin Hab. destruct (Hws acc Hin) as (i & Hi & ->).
    apply Exact_rel; simpl; auto; lia.
  - intros acc pts Hin Hpts. destruct (Hws acc Hin) as (i & Hi & ->).
    unfold PixelFinderKernelOnePointPerThreadSimplified. simpl.
    by apply (classify_no_fault r T).
  - f_equal. eapply (processed_all r T pts0); [lia|done| |exact Hp].
    intros j. rewrite elem_of_concat_fmap. split.
    + intros (acc & Hin & Hj). destruct (Hws acc Hin) as (i & Hi & ->).
      simpl in Hj. apply list_elem_of_singleton in Hj. lia.
    + intros Hj. exists (mkAcc j T k). split.
      * rewrite Hperm. apply elem_of_grid. exists j. split; [lia|done].
      * simpl. by left.
Qed.

Lemma Exact_launch_classifies_witness :
  launch (PixelFinderKernelOnePointPerThreadSimplified (classify (F32.lit 1 0)))
    [mkAcc 1 2 1; mkAcc 0 2 1]
    (mkPoints [F32.lit 0 0; F32.lit 1 0; F32.lit 2 0]
              [F32.lit 0 0; F32.lit 0 0; F32.lit 0 0] [false; false; true])
  = Done (mkPoints [F32.lit 0 0; F32.lit 1 0; F32.lit 2 0]
                   [F32.lit 0 0; F32.lit 0 0; F32.lit 0 0]
                   [true; true; true]).
Proof.
  apply (Exact_launch_classifies (F32.lit 1 0) 2 1
           [mkAcc 1 2 1; mkAcc 0 2 1]).
  - lia.
  - apply Permutation_swap.
  - unfold buffers_hold. simpl. lia.
Defined.

Lemma classify_shortest r idx pts :
  0 <= idx ->
  (classify r idx pts = Fault <-> shortest pts <= idx) /\
  forall pts', classify r idx pts = Done pts' -> shortest pts' = shortest pts.
Proof.
  intros Hidx. unfold classify, processPoint, shortest.
  destruct (x pts !! Z.to_nat idx) as [px|] eqn:Hx.
  - apply lookup_lt_Some in Hx.
    destruct (y pts !! Z.to_nat idx) as [py|] eqn:Hy.
    + apply lookup_lt_Some in Hy. destruct (decide _) as [Hlt | Hge].
      * split; [split; [done|lia]|]. intros pts' [= <-]. simpl.
        by rewrite length_insert.
      * split; [split; [lia|done]|done].
    + apply lookup_ge_None in Hy. split; [split; [lia|done]|done].
  - apply lookup_ge_None in Hx. split; [split; [lia|done]|done].
Qed.

(** X5: the Exact kernel and the kernel of lessons 24 and 25 test no
    bound: launched with more workers than the shortest of the three
    buffers has elements, in any order of the workers, they access memory
    outside the buffers. *)
Theorem Exact_launch_out_of_bounds r T k ws pts0 :
  shortest pts0 < T -> ws ≡ₚ grid T k ->
  launch (PixelFinderKernelOnePointPerThreadSimplified (classify r)) ws pts0
  = Fault /\
  launch (fun acc pts => PixelFinderKernel acc pts r) ws pts0 = Fault.
Proof.
  intros Hshort Hperm.
  assert (launch (PixelFinderKernelOnePointPerThreadSimplified (classify r))
            ws pts0 = Fault) as Hl; [|by split].
  assert (exists acc, acc ∈ ws /\ shortest pts0 <= getIdx_Grid_Threads acc)
    as Hbad.
  { exists (mkAcc (shortest pts0) T k). split; [|done].
    rewrite Hperm. apply elem_of_grid. exists (shortest pts0).
    split; [|done]. unfold shortest in *. lia. }
  assert (forall acc, acc ∈ ws -> 0 <= getIdx_Grid_Threads acc) as Hpos.
  { intros acc Hin. rewrite Hperm in Hin.
    apply elem_of_grid in Hin as (i & Hi & ->). simpl. lia. }
  clear Hperm Hshort. revert pts0 Hbad.
  induction ws as [|acc ws IH]; intros pts0 (bad & Hin & Hge).
  - by apply elem_of_nil in Hin.
  - simpl. unfold PixelFinderKernelOnePointPerThreadSimplified at 1.
    destruct (classify_shortest r (getIdx_Grid_Threads acc) pts0
                (Hpos acc ltac:(by left))) as [Hfault Hkeep].
    destruct (classify r (getIdx_Grid_Threads acc) pts0) as [pts|pts|] eqn:E;
      [|by apply processPoint_not_out_of_fuel in E|done].
    apply elem_of_cons in Hin as [-> | Hin].
    + assert (@Done Points pts = Fault) by (by apply Hfault). done.
    + apply IH.
      * intros a Ha. apply Hpos. by right.
      * exists bad. split; [done|]. by rewrite (Hkeep pts).
Qed.

Lemma Exact_launch_out_of_bounds_witness :
  launch (PixelFinderKernelOnePointPerThreadSimplified (classify (F32.lit 1 0)))
    [mkAcc 1 2 1; mkAcc 0 2 1]
    (mkPoints [F32.lit 0 0] [F32.lit 0 0] [false])
  = Fault.
Proof.
  apply (Exact_launch_out_of_bounds (F32.lit 1 0) 2 1
           [mkAcc 1 2 1; mkAcc 0 2 1]).
  - vm_compute. reflexivity.
  - apply Permutation_swap.
Defined.

(** * The whole run *)

Lemma classified_inside_all r n pts0 :
  Z.to_nat n = length (x pts0) -> Z.to_nat n = length (y pts0) ->
  Z.to_nat n = length (inside pts0) ->
  inside (classified r n pts0) = flags_of r (x pts0) (y pts0).
Proof.
  intros Hx Hy Hi. unfold classified. simpl.
  rewrite drop_ge by lia. rewrite app_nil_r. apply take_ge.
  unfold flags_of. rewrite length_zip_with. lia.
Qed.

(** X6: for [n < 2^32] points with coordinate and flag buffers of [n]
    elements, the device and host parts of [main] report the binary32
    value of [4.f * P / n] where [P] is the number of points with
    [sqrt (x * x + y * y) <= r], whatever the flag buffer held before the
    launch. *)
Theorem main_pipeline_reports fuel n r xs ys flags0 :
  U32.in_range n ->
  Z.to_nat n = length xs -> Z.to_nat n = length ys ->
  Z.to_nat n = length flags0 ->
  (Z.to_nat n <= fuel)%nat ->
  main_pipeline fuel n r xs ys flags0
  = Done (estimate (count_true (flags_of r xs ys)) n).
Proof.
  intros Hn Hx Hy Hi Hfuel. unfold main_pipeline.
  rewrite U32_mul_1_r by done.
  set (pts0 := mkPoints xs ys flags0).
  assert (buffers_hold n pts0) as Hb
    by (unfold buffers_hold, U32.in_range in *; simpl; lia).
  assert (forall acc, acc ∈ grid n 1 -> exists i, 0 <= i < n /\ acc = mkAcc i n 1)
    as Hws by (intros acc Hin; by apply elem_of_grid).
  destruct (launch_processed r n
              (PixelFinderKernelOnePointPerThreadSimplified (classify r))
              (PixelFinderKernelOnePointPerThreadSimplified log_call)
              (fun acc => [getIdx_Grid_Threads acc]) (grid n 1) pts0)
    as (pts & -> & Hp); try done.
  - intros R HR acc a b Hin Hab. destruct (Hws acc Hin) as (i & Hi' & ->).
    apply Exact_rel; simpl; auto; lia.
  - intros acc pts Hin Hpts. destruct (Hws acc Hin) as (i & Hi' & ->).
    unfold PixelFinderKernelOnePointPerThreadSimplified. simpl.
    by apply (classify_no_fault r n).
  - assert (pts = classified r n pts0) as ->.
    { eapply (processed_all r n pts0); [u32|done| |exact Hp].
      intros j. rewrite elem_of_concat_fmap. split.
      + intros (acc & Hin & Hj). destruct (Hws acc Hin) as (i & Hi' & ->).
        simpl in Hj. apply list_elem_of_singleton in Hj. lia.
      + intros Hj. exists (mkAcc j n 1). split.
        * apply elem_of_grid. exists j. split; [lia|done].
        * simpl. by left. }
    rewrite classified_inside_all by done. simpl.
    unfold compute_pi_on_host, count_inside.
    assert (n = Z.of_nat (length (flags_of r xs ys))) as Hlen.
    { unfold flags_of. rewrite length_zip_with.
      unfold U32.in_range in Hn. lia. }
    destruct Hn as [Hn0 Hn1].
    rewrite (count_loop _ n Hlen Hn1 (Z.to_nat n)); try lia.
    by rewrite drop_0.
Qed.

Lemma main_pipeline_reports_witness :
  main_pipeline 2 2 (F32.lit 1 0) [F32.lit 0 0; F32.lit 2 0]
    [F32.lit 0 0; F32.lit 0 0] [true; true]
  = Done (estimate 1 2).
Proof.
  apply (main_pipeline_reports 2 2 (F32.lit 1 0) [F32.lit 0 0; F32.lit 2 0]
           [F32.lit 0 0; F32.lit 0 0] [true; true]);
    [u32|reflexivity|reflexivity|reflexivity|simpl; lia].
Defined.

(** * The reduction on longer and shorter buffers *)

(** X7: the reduction of [main] reads the first [n] flags only: on a
    buffer of at least [n] flags, [n < 2^32], it returns the number of
    [true] flags among the first [n], which is at most [n], whatever
    follows them. *)
Theorem count_inside_prefix fuel (flags : list bool) n :
  U32.in_range n -> n <= Z.of_nat (length flags) -> (Z.to_nat n <= fuel)%nat ->
  count_inside fuel flags n = Done (count_true (take (Z.to_nat n) flags)) /\
  0 <= count_true (take (Z.to_nat n) flags) <= n.
Proof.
  intros [Hn0 Hn1] Hlen Hfuel. split.
  - unfold count_inside.
    rewrite (for_loop_ext (fun i => 0 <= i) _ _ (fun i => U32.add i 1) _
               (fun (i P : Z) =>
                  match take (Z.to_nat n) flags !! Z.to_nat i with
                  | Some b => Done (if b : bool then U32.add P 1 else P)
                  | None => Fault
                  end)).
    + assert (n = Z.of_nat (length (take (Z.to_nat n) flags))) as Hl
        by (rewrite length_take; lia).
      rewrite (count_loop _ n Hl Hn1 (Z.to_nat n)); try lia. done.
    + intros i P Hi Hc%Z.ltb_lt. by rewrite lookup_take_lt by lia.
    + intros i _ _. split; [done|apply U32_add_range].
    + done.
  - pose proof (count_true_bounds (take (Z.to_nat n) flags)) as Hb.
    rewrite length_take in Hb. lia.
Qed.

Lemma count_inside_prefix_witness :
  count_inside 2 [true; false; true] 2 = Done 1.
Proof.
  refine (proj1 (count_inside_prefix 2 [true; false; true] 2 _ _ _));
    [u32|simpl; lia|lia].
Defined.

(** The counting loop on a buffer that ends before [n]. *)
Lemma count_loop_short (flags : list bool) n :
  Z.of_nat (length flags) < n -> n < U32.modulus ->
  forall (c fuel : nat) i P,
    (c < fuel)%nat -> 0 <= i -> i + Z.of_nat c = Z.of_nat (length flags) ->
    for_loop fuel (fun i => i <? n) (fun i => U32.add i 1)
      (fun (i P : Z) =>
         match flags !! Z.to_nat i with
         | Some b => Done (if b : bool then U32.add P 1 else P)
         | None => Fault
         end) i P
    = Fault.
Proof.
  intros Hlen Hn. induction c as [|c IH]; intros fuel i P Hfuel Hi Hc.
  - destruct fuel as [|fuel]; [lia|].
    rewrite for_loop_step by (apply Z.ltb_lt; lia).
    by rewrite lookup_ge_None_2 by lia.
  - destruct fuel as [|fuel]; [lia|].
    rewrite for_loop_step by (apply Z.ltb_lt; lia).
    destruct (lookup_lt_is_Some_2 flags (Z.to_nat i) ltac:(lia)) as [b ->].
    rewrite U32_add_small by lia. apply IH; lia.
Qed.

(** X8: the reduction of [main] tests no buffer length: asked for more
    flags than the buffer holds, it reads past the end of the buffer. *)
Theorem count_inside_out_of_bounds fuel (flags : list bool) n :
  U32.in_range n -> Z.of_nat (length flags) < n ->
  (length flags < fuel)%nat ->
  count_inside fuel flags n = Fault /\
  compute_pi_on_host fuel flags n = Fault.
Proof.
  intros [Hn0 Hn1] Hlen Hfuel.
  assert (count_inside fuel flags n = Fault) as Hc.
  { unfold count_inside.
    apply (count_loop_short flags n Hlen Hn1 (length flags)); lia. }
  split; [done|]. unfold compute_pi_on_host. by rewrite Hc.
Qed.

Lemma count_inside_out_of_bounds_witness :
  count_inside 3 [true; false] 3 = Fault.
Proof.
  refine (proj1 (count_inside_out_of_bounds 3 [true; false] 3 _ _ _));
    [u32|simpl; lia|simpl; lia].
Defined.

(** * The load of a worker *)

Lemma blocked_seq_length_le n k start stride c :
  0 <= k ->
  Z.of_nat (length (blocked_seq n k start stride c)) <= k * Z.of_nat c.
Proof.
  intros Hk. revert start. induction c as [|c IH]; intros start.
  - simpl. lia.
  - rewrite blocked_seq_S, length_app. specialize (IH (start + stride)).
    unfold run_of at 1. rewrite length_seqZ. lia.
Qed.

Lemma blocked_seq_length_ge n k start stride (c full : nat) :
  0 <= k -> 0 <= stride -> (full <= c)%nat ->
  start + Z.of_nat full * stride - stride + k <= n \/ full = 0%nat ->
  k * Z.of_nat full <= Z.of_nat (length (blocked_seq n k start stride c)).
Proof.
  intros Hk Hs. revert start full.
  induction c as [|c IH]; intros start full Hle Hfull.
  - assert (full = 0%nat) as -> by lia. simpl. lia.
  - destruct full as [|full]; [lia|].
    rewrite blocked_seq_S, length_app.
    destruct Hfull as [Hfull|]; [|done].
    specialize (IH (start + stride) full ltac:(lia)).
    assert (0 <= Z.of_nat full * stride) by (apply Z.mul_nonneg_nonneg; lia).
    unfold run_of at 1. rewrite length_seqZ.
    assert (k * Z.of_nat full
            <= Z.of_nat (length (blocked_seq n k (start + stride) stride c))).
    { apply IH. destruct full as [|full']; [by right|left]. lia. }
    lia.
Qed.

(** X9: the load is balanced.  Without 32-bit overflow a worker of the
    Strided kernel processes between [floor (n / T)] and [ceil (n / T)]
    points, and a worker of the StridedBlocked kernel between
    [k * floor (n / (T k))] and [k * ceil (n / (T k))] points. *)
Theorem worker_load_balanced n T k i :
  0 <= i < T -> 0 < k -> 0 <= n ->
  (n + T <= U32.modulus ->
   exists calls,
     Strided_calls (Z.to_nat (ceil_div n T)) (mkAcc i T k) n = Done calls /\
     n / T <= Z.of_nat (length calls) <= ceil_div n T) /\
  (n + T * k <= U32.modulus ->
   exists calls,
     StridedBlocked_calls (Z.to_nat (ceil_div n (T * k))) (Z.to_nat k)
       (mkAcc i T k) n = Done calls /\
     k * (n / (T * k)) <= Z.of_nat (length calls) <= k * ceil_div n (T * k)).
Proof.
  intros Hi Hk Hn.
  assert (0 < T * k) as HS by (apply Z.mul_pos_pos; lia).
  assert (0 <= i * k) as Hik by (apply Z.mul_nonneg_nonneg; lia).
  split; intros Hsum.
  - exists (Strided_spec n T i).
    pose proof (iterations_le_ceil n T i ltac:(lia) ltac:(lia)) as Hup.
    assert (0 <= ceil_div n T) by (unfold ceil_div; apply Z.div_pos; lia).
    split.
    + apply Strided_calls_spec; [u32|lia|intros; lia|lia].
    + unfold Strided_spec. rewrite stride_seq_length. split; [|lia].
      unfold iterations.
      assert (n / T <= (n - i + T - 1) / T) by (apply Z.div_le_mono; lia).
      assert (0 <= n / T) by (apply Z.div_pos; lia). lia.
  - exists (StridedBlocked_spec n T k i).
    pose proof (iterations_le_ceil n (T * k) (i * k) HS Hik) as Hup.
    assert (0 <= ceil_div n (T * k)) as Hceil
      by (unfold ceil_div; apply Z.div_pos; lia).
    split.
    + apply StridedBlocked_calls_spec; try done; lia.
    + unfold StridedBlocked_spec. split.
      * assert (0 <= n / (T * k)) as Hq by (apply Z.div_pos; lia).
        pose proof (Z.mul_div_le n (T * k) HS) as Hfl.
        assert (i * k + k <= T * k) by nia.
        assert (n / (T * k) <= (n - i * k + T * k - 1) / (T * k)) as Hc.
        { destruct (decide (n / (T * k) = 0)) as [-> | Hne].
          - apply Z.div_pos; lia.
          - apply Z.div_le_lower_bound; [lia|]. nia. }
        rewrite <- (Z2Nat.id (n / (T * k))) at 1 by lia.
        apply blocked_seq_length_ge; [lia|lia|unfold iterations; lia|].
        destruct (decide (n / (T * k) = 0)) as [-> | Hne]; [by right|left].
        rewrite Z2Nat.id by lia. nia.
      * pose proof (blocked_seq_length_le n k (i * k) (T * k)
                      (iterations n (T * k) (i * k)) ltac:(lia)).
        assert (0 <= ceil_div n (T * k))
          by (unfold ceil_div; apply Z.div_pos; lia).
        nia.
Qed.

Lemma worker_load_balanced_witness :
  (exists calls,
     Strided_calls 3 (mkAcc 1 4 3) 10 = Done calls /\
     2 <= Z.of_nat (length calls) <= 3) /\
  (exists calls,
     StridedBlocked_calls 1 3 (mkAcc 1 4 3) 10 = Done calls /\
     0 <= Z.of_nat (length calls) <= 3).
Proof.
  destruct (worker_load_balanced 10 4 3 1) as [H1 H2]; [lia..|].
  split; [apply H1 | apply H2]; u32.
Defined.

(** * The classifier at the edges of binary32 *)

Lemma processPoint_flag pts r idx pts' px py :
  x pts !! Z.to_nat idx = Some px -> y pts !! Z.to_nat idx = Some py ->
  processPoint pts r idx = Done pts' ->
  inside pts' !! Z.to_nat idx = Some (F32.leb (distance px py) r).
Proof.
  intros Hx Hy Hrun. unfold processPoint in Hrun. rewrite Hx, Hy in Hrun.
  destruct (decide _) as [Hlt|]; [|done]. inversion Hrun; subst. simpl.
  by apply list_lookup_insert_eq.
Qed.

Lemma SFadd_comm (a b : F32.float) : F32.add a b = F32.add b a.
Proof.
  unfold F32.add.
  destruct a as [sa|sa| |sa ma ea], b as [sb|sb| |sb mb eb]; simpl;
    try done; try (by destruct sa, sb).
  by rewrite (Z.min_comm ea eb), Z.add_comm.
Qed.

Lemma SFmul_opp_opp (a : F32.float) :
  F32.mul (SFopp a) (SFopp a) = F32.mul a a.
Proof.
  unfold F32.mul. destruct a as [s|s| |s m e]; simpl; try done;
    by destruct s.
Qed.

(** The square root is never a negative number. *)
Lemma sqrt_not_negative (a : F32.float) :
  match F32.sqrt a with
  | S754_finite true _ _ | S754_infinity true => False
  | _ => True
  end.
Proof.
  unfold F32.sqrt, SFsqrt. destruct a as [s|[]| |[] m e]; try done.
  destruct (SFsqrt_core_binary F32.prec F32.emax (Z.pos m) e) as [[mz ez] lz].
  unfold binary_round_aux.
  destruct (shr_fexp _ _ mz ez lz) as [mrs' e'].
  destruct (shr_fexp _ _ _ e' loc_Exact) as [mrs'' e''].
  destruct (shr_m mrs''); try done. by destruct (_ <=? _).
Qed.

(** X10: a point with a NaN coordinate, and every point when the radius is
    NaN, is classified as outside. *)
Theorem nan_is_outside pts r idx pts' px py :
  x pts !! Z.to_nat idx = Some px -> y pts !! Z.to_nat idx = Some py ->
  processPoint pts r idx = Done pts' ->
  F32.is_nan px = true \/ F32.is_nan py = true \/ F32.is_nan r = true ->
  inside pts' !! Z.to_nat idx = Some false.
Proof.
  intros Hx Hy Hrun Hnan.
  rewrite (processPoint_flag _ _ _ _ _ _ Hx Hy Hrun). f_equal.
  unfold distance, F32.leb, SFleb.
  destruct Hnan as [Hn | [Hn | Hn]].
  - destruct px; try done; simpl; by destruct (F32.mul py py).
  - destruct py; try done; simpl; by destruct (F32.mul px px).
  - destruct r; try done; by destruct (F32.sqrt _).
Qed.

Lemma nan_is_outside_witness :
  inside (mkPoints [S754_nan] [F32.lit 0 0] [false]) !! Z.to_nat 0
  = Some false.
Proof.
  apply (nan_is_outside (mkPoints [S754_nan] [F32.lit 0 0] [true])
           (F32.lit 1 0) 0 _ S754_nan (F32.lit 0 0) eq_refl eq_refl eq_refl).
  by left.
Defined.

(** X11: with a negative radius, finite or infinite, no point is
    classified as inside. *)
Theorem negative_radius_excludes_all pts r idx pts' px py :
  x pts !! Z.to_nat idx = Some px -> y pts !! Z.to_nat idx = Some py ->
  processPoint pts r idx = Done pts' ->
  (exists m e, r = S754_finite true m e) \/ r = S754_infinity true ->
  inside pts' !! Z.to_nat idx = Some false.
Proof.
  intros Hx Hy Hrun Hneg.
  rewrite (processPoint_flag _ _ _ _ _ _ Hx Hy Hrun). f_equal.
  unfold distance, F32.leb, SFleb.
  pose proof (sqrt_not_negative (F32.add (F32.mul px px) (F32.mul py py)))
    as Hs.
  destruct Hneg as [(m & e & ->) | ->];
    destruct (F32.sqrt _) as [s|[]| |[] m' e']; simpl; done.
Qed.

Lemma negative_radius_excludes_all_witness :
  inside (mkPoints [F32.lit 0 0] [F32.lit 0 0] [false]) !! Z.to_nat 0
  = Some false.
Proof.
  apply (negative_radius_excludes_all
           (mkPoints [F32.lit 0 0] [F32.lit 0 0] [true])
           (S754_finite true 8388608 (-23)) 0 _ (F32.lit 0 0) (F32.lit 0 0)
           eq_refl eq_refl eq_refl).
  left. by eexists _, _.
Defined.

(** X12: the classification is symmetric: exchanging the two coordinates
    of a point, or changing the sign of one of them, does not change the
    distance the classifier computes, hence not the flag. *)
Theorem classification_symmetric (px py r : F32.float) :
  distance py px = distance px py /\
  distance (SFopp px) py = distance px py /\
  distance px (SFopp py) = distance px py /\
  F32.leb (distance py px) r = F32.leb (distance px py) r /\
  F32.leb (distance (SFopp px) (SFopp py)) r = F32.leb (distance px py) r.
Proof.
  assert (distance py px = distance px py) as H1
    by (unfold distance; by rewrite SFadd_comm).
  assert (distance (SFopp px) py = distance px py) as H2
    by (unfold distance; by rewrite SFmul_opp_opp).
  assert (forall qx, distance qx (SFopp py) = distance qx py) as H3
    by (intros qx; unfold distance; by rewrite SFmul_opp_opp).
  split_and!; try done.
  - by rewrite H1.
  - by rewrite H3, H2.
Qed.

(** * Rounding never invents a NaN *)

Lemma shr_1_m_nonneg mrs : 0 <= shr_m mrs -> 0 <= shr_m (shr_1 mrs).
Proof.
  destruct mrs as [m r s]. intros Hm. change (0 <= m) in Hm.
  rewrite shr_1_nonneg by done. apply Z.div_pos; lia.
Qed.

Lemma shr_m_nonneg mrs e n : 0 <= shr_m mrs -> 0 <= shr_m (fst (shr mrs e n)).
Proof.
  intros Hm. destruct n as [|p|p]; simpl; try done.
  rewrite iter_pos_nat. induction (Pos.to_nat p) as [|k IH]; simpl; [done|].
  by apply shr_1_m_nonneg.
Qed.

Lemma round_nearest_even_nonneg m l : 0 <= m -> 0 <= round_nearest_even m l.
Proof.
  intros Hm. destruct l as [|[]]; simpl; try lia. destruct (Z.even m); lia.
Qed.

(** Rounding a non-negative significand gives a number of the sign asked
    for. *)
Lemma binary_round_aux_shape s m e l :
  0 <= m ->
  match binary_round_aux F32.prec F32.emax s m e l with
  | S754_nan => False
  | S754_zero s' | S754_infinity s' | S754_finite s' _ _ => s' = s
  end.
Proof.
  intros Hm. unfold binary_round_aux.
  pose proof (shr_m_nonneg (shr_record_of_loc m l) e
                (fexp F32.prec F32.emax (Zdigits2 m + e) - e)) as H1.
  rewrite shr_record_of_loc_m in H1. specialize (H1 Hm).
  unfold shr_fexp at 1.
  destruct (shr (shr_record_of_loc m l) e _) as [mrs' e']. simpl in H1.
  pose proof (round_nearest_even_nonneg (shr_m mrs') (loc_of_shr_record mrs') H1)
    as H2.
  set (m2 := round_nearest_even (shr_m mrs') (loc_of_shr_record mrs')) in *.
  pose proof (shr_m_nonneg (shr_record_of_loc m2 loc_Exact) e'
                (fexp F32.prec F32.emax (Zdigits2 m2 + e') - e')) as H3.
  rewrite shr_record_of_loc_m in H3. specialize (H3 H2).
  unfold shr_fexp.
  destruct (shr (shr_record_of_loc m2 loc_Exact) e' _) as [mrs'' e''].
  simpl in H3. destruct (shr_m mrs''); [done| |lia]. by destruct (_ <=? _).
Qed.

Lemma binary_round_aux_nonneg m e l :
  0 <= m -> is_nonneg (binary_round_aux F32.prec F32.emax false m e l) = true.
Proof.
  intros Hm. pose proof (binary_round_aux_shape false m e l Hm) as H.
  by destruct (binary_round_aux _ _ _ _ _ _) as [[]|[]| |[] ? ?].
Qed.

Lemma mul_self_nonneg (a : F32.float) :
  F32.is_nan a = false -> is_nonneg (F32.mul a a) = true.
Proof.
  intros Ha. unfold F32.mul. destruct a as [s|s| |s m e]; try done.
  - by destruct s.
  - by destruct s.
  - simpl. replace (xorb s s) with false by (by destruct s).
    by apply binary_round_aux_nonneg.
Qed.

Lemma add_nonneg (a b : F32.float) :
  is_nonneg a = true -> is_nonneg b = true -> is_nonneg (F32.add a b) = true.
Proof.
  unfold F32.add.
  destruct a as [[]|[]| |[] ma ea], b as [[]|[]| |[] mb eb]; try done.
  intros _ _. unfold SFadd. simpl cond_Zopp.
  destruct (shl_align ma ea (Z.min ea eb)) as [ma' ea'].
  destruct (shl_align mb eb (Z.min ea eb)) as [mb' eb']. simpl fst.
  unfold binary_normalize, binary_round.
  change (Z.pos ma' + Z.pos mb') with (Z.pos (ma' + mb')). cbv iota.
  destruct (shl_align _ _ _) as [mz ez]. by apply binary_round_aux_nonneg.
Qed.

Lemma sqrt_nonneg (a : F32.float) :
  is_nonneg a = true -> is_nonneg (F32.sqrt a) = true.
Proof.
  unfold F32.sqrt. destruct a as [[]|[]| |[] m e]; try done. intros _.
  unfold SFsqrt, SFsqrt_core_binary.
  match goal with |- context [Z.sqrtrem ?v] =>
    pose proof (Z.sqrtrem_spec v) as Hs; destruct (Z.sqrtrem v) as [q rem]
  end.
  apply binary_round_aux_nonneg.
  match type of Hs with ?P -> _ => assert P as HP end.
  { destruct (e - 2 * _) as [|p|p]; try done. by apply Z.shiftl_nonneg. }
  destruct (Hs HP) as [_ ?]. lia.
Qed.

(** The computed distance of a point without NaN coordinate is a
    non-negative number. *)
Lemma distance_nonneg (px py : F32.float) :
  F32.is_nan px = false -> F32.is_nan py = false ->
  is_nonneg (distance px py) = true.
Proof.
  intros Hx Hy. unfold distance.
  by apply sqrt_nonneg, add_nonneg; apply mul_self_nonneg.
Qed.

Lemma distance_nan (px py : F32.float) :
  F32.is_nan px = true \/ F32.is_nan py = true -> distance px py = S754_nan.
Proof.
  unfold distance. intros [Hn | Hn].
  - by destruct px.
  - destruct py; try done. unfold F32.add, F32.mul at 2. simpl SFmul.
    by destruct (F32.mul px px).
Qed.

(** X13: with the radius [+inf] a point is classified as inside exactly
    when neither of its coordinates is NaN: infinite coordinates and
    overflowing squares are accepted. *)
Theorem infinite_radius_includes_numbers pts idx pts' px py :
  x pts !! Z.to_nat idx = Some px -> y pts !! Z.to_nat idx = Some py ->
  processPoint pts (S754_infinity false) idx = Done pts' ->
  inside pts' !! Z.to_nat idx = Some true <->
  F32.is_nan px = false /\ F32.is_nan py = false.
Proof.
  intros Hx Hy Hrun.
  rewrite (processPoint_flag _ _ _ _ _ _ Hx Hy Hrun). split.
  - intros [= H].
    destruct (F32.is_nan px) eqn:Hnx; [by rewrite distance_nan in H; [|left]|].
    destruct (F32.is_nan py) eqn:Hny; [by rewrite distance_nan in H; [|right]|].
    done.
  - intros [Hnx Hny]. f_equal. pose proof (distance_nonneg px py Hnx Hny) as H.
    by destruct (distance px py) as [[]|[]| |[] ? ?].
Qed.

Lemma infinite_radius_includes_numbers_witness :
  inside (mkPoints [F32.lit 1 64] [F32.lit 0 0] [true]) !! Z.to_nat 0
  = Some true.
Proof.
  apply (infinite_radius_includes_numbers
           (mkPoints [F32.lit 1 64] [F32.lit 0 0] [false]) 0 _
           (F32.lit 1 64) (F32.lit 0 0) eq_refl eq_refl eq_refl).
  by split.
Defined.

(** * The estimate in binary32 *)

Lemma shl_align_value p q :
  Z.pos (Pos.iter xO p q) = Z.pos p * 2 ^ Z.pos q.
Proof.
  induction q as [|q IH] using Pos.peano_ind.
  - simpl. lia.
  - rewrite Pos.iter_succ, Pos2Z.inj_succ, Z.pow_succ_r by lia.
    rewrite Pos2Z.pos_xO, IH. lia.
Qed.

(** The conversion of a positive 32-bit integer is a normal number. *)
Lemma of_uint32_normal (n : Z) :
  1 <= n < U32.modulus ->
  exists M E, F32.of_uint32 n = S754_finite false M E /\
              2 ^ 23 <= Z.pos M < 2 ^ 24 /\ -23 <= E <= 9.
Proof.
  intros Hn. destruct n as [|p|p]; [lia| |lia].
  unfold F32.of_uint32, F32.lit, binary_normalize, binary_round.
  pose proof (digits2_pos_bounds p) as Hd.
  remember (Z.pos (digits2_pos p)) as d eqn:Hdd.
  assert (1 <= d <= 32) as Hd32.
  { split; [lia|]. destruct (decide (d <= 32)) as [|Hgt]; [done|].
    assert (2 ^ 32 <= 2 ^ (d - 1)) by (apply Z.pow_le_mono_r; lia).
    change U32.modulus with (2 ^ 32) in Hn. lia. }
  unfold shl_align, fexp, emin, F32.prec, F32.emax.
  destruct (Z.max (d + 0 - 24) (3 - 128 - 24) - 0) as [|q|q] eqn:Hq.
  - assert (d = 24) as Hd24 by lia. rewrite Hd24 in Hd.
    change (24 - 1) with 23 in Hd.
    exists p, 0. split; [|split; [done|lia]].
    apply binary_round_aux_in_place; try done.
    simpl Zdigits2. lia.
  - destruct (binary_round_aux_normal p 0 (Z.to_nat (d - 25)))
      as (M & E & HM & Hnorm & HE & _).
    + lia.
    + lia.
    + lia.
    + right. lia.
    + exists M, E. split; [done|]. split; [done|]. lia.
  - assert (Z.pos q = 24 - d) as Hq' by lia.
    assert (2 ^ (d - 1) * 2 ^ Z.pos q = 2 ^ 23) as H1.
    { rewrite <- Z.pow_add_r by lia. f_equal. lia. }
    assert (2 ^ d * 2 ^ Z.pos q = 2 ^ 24) as H2.
    { rewrite <- Z.pow_add_r by lia. f_equal. lia. }
    assert (0 < 2 ^ Z.pos q) as H3 by (apply Z.pow_pos_nonneg; lia).
    assert (2 ^ 23 <= Z.pos (Pos.iter xO p q) < 2 ^ 24) as Hnorm.
    { rewrite shl_align_value. nia. }
    exists (Pos.iter xO p q), (Z.max (d + 0 - 24) (3 - 128 - 24)).
    split; [|split; [done|lia]].
    apply binary_round_aux_in_place; try done; try lia.
    simpl Zdigits2. rewrite (digits2_pos_unique _ 24); [lia|done].
Qed.

(** Multiplication by [4.f] is exact on normal numbers of moderate
    exponent. *)
Lemma mul_four (M : positive) (E : Z) :
  2 ^ 23 <= Z.pos M < 2 ^ 24 -> -100 <= E <= 100 ->
  F32.mul (F32.lit 4 0) (S754_finite false M E) = S754_finite false M (E + 2).
Proof.
  intros HM HE.
  change (F32.lit 4 0) with (S754_finite false 8388608 (-21)).
  unfold F32.mul, SFmul. simpl xorb.
  destruct (binary_round_aux_normal (8388608 * M) (-21 + E) 22)
    as (M' & E' & HM' & Hnorm & HE' & Herr).
  - apply digits2_pos_unique. rewrite Pos2Z.inj_mul.
    change (24 + Z.of_nat 23 - 1) with 46. change (24 + Z.of_nat 23) with 47.
    change (2 ^ 46) with (8388608 * 2 ^ 23).
    change (2 ^ 47) with (8388608 * 2 ^ 24). lia.
  - simpl Z.of_nat. lia.
  - simpl Z.of_nat. lia.
  - right. simpl Z.of_nat. lia.
  - change F32.prec with 24. change F32.emax with 128. rewrite HM'.
    change (Z.of_nat 23) with 23 in *. change (Z.of_nat 22) with 22 in *.
    rewrite Pos2Z.inj_mul in HE', Herr.
    change (2 ^ 22) with 4194304 in *. change (2 ^ 23) with 8388608 in *.
    change (2 ^ 24) with 16777216 in *.
    destruct HE' as [-> | [_ Hc]]; [|lia].
    replace (-21 + E + 23 - (-21 + E)) with 23 in Herr by lia.
    change (2 ^ 23) with 8388608 in Herr.
    assert (Z.pos M' = Z.pos M) as [= ->] by lia. f_equal. lia.
Qed.

Lemma digits2_pos_mono (p q : positive) :
  Z.pos p <= Z.pos q -> Z.pos (digits2_pos p) <= Z.pos (digits2_pos q).
Proof.
  intros H. pose proof (digits2_pos_bounds p) as [Hp _].
  pose proof (digits2_pos_bounds q) as [_ Hq].
  destruct (decide (Z.pos (digits2_pos p) <= Z.pos (digits2_pos q)));
    [done|].
  assert (2 ^ Z.pos (digits2_pos q) <= 2 ^ (Z.pos (digits2_pos p) - 1))
    by (apply Z.pow_le_mono_r; lia).
  lia.
Qed.

(** The conversion of a positive 32-bit integer of [d] binary digits: exact
    up to 24 digits, rounded to 24 digits above, with a carry into the next
    binade when the rounding reaches [2^d]. *)
Lemma of_uint32_spec (p : positive) :
  Z.pos p < U32.modulus ->
  let d := Z.pos (digits2_pos p) in
  exists M E,
    F32.of_uint32 (Z.pos p) = S754_finite false M E /\
    2 ^ 23 <= Z.pos M < 2 ^ 24 /\
    ((d <= 24 /\ E = d - 24 /\ Z.pos M = Z.pos p * 2 ^ (24 - d)) \/
     (24 < d <= 32 /\ E = d - 24 /\
      - 2 ^ (d - 25) <= Z.pos M * 2 ^ (d - 24) - Z.pos p <= 2 ^ (d - 25)) \/
     (24 < d <= 32 /\ E = d - 23 /\ Z.pos M = 2 ^ 23 /\
      2 ^ d <= Z.pos p + 2 ^ (d - 25))).
Proof.
  intros Hn d.
  unfold F32.of_uint32, F32.lit, binary_normalize, binary_round.
  pose proof (digits2_pos_bounds p) as Hd. fold d in Hd.
  assert (1 <= d <= 32) as Hd32.
  { split; [unfold d; lia|]. destruct (decide (d <= 32)) as [|Hgt]; [done|].
    assert (2 ^ 32 <= 2 ^ (d - 1)) by (apply Z.pow_le_mono_r; lia).
    change U32.modulus with (2 ^ 32) in Hn. lia. }
  fold d. clearbody d.
  unfold shl_align, fexp, emin, F32.prec, F32.emax.
  destruct (Z.max (d + 0 - 24) (3 - 128 - 24) - 0) as [|q|q] eqn:Hq.
  - assert (d = 24) as Hd24 by lia. rewrite Hd24 in Hd.
    change (24 - 1) with 23 in Hd.
    exists p, 0. split; [|split; [done|]].
    + apply binary_round_aux_in_place; try done.
      simpl Zdigits2. pose proof (digits2_pos_unique p 24 Hd). lia.
    + left. rewrite Hd24. simpl. lia.
  - pose proof (binary_round_aux_normal p 0 (Z.to_nat (d - 25))) as H.
    cbv zeta in H. rewrite Nat2Z.inj_succ, Z2Nat.id in H by lia.
    replace (Z.succ (d - 25)) with (d - 24) in H by lia.
    destruct H as (M & E & HM & Hnorm & HE & Herr).
    + apply digits2_pos_unique. by replace (24 + (d - 24)) with d by lia.
    + lia.
    + lia.
    + right. lia.
    + exists M, E. split; [done|]. split; [done|]. right.
      assert (2 ^ (d - 24) = 2 * 2 ^ (d - 25)) as H1.
      { rewrite <- Z.pow_succ_r by lia. f_equal. lia. }
      assert (2 ^ d = 2 ^ 24 * 2 ^ (d - 24)) as H2.
      { rewrite <- Z.pow_add_r by lia. f_equal. lia. }
      assert (0 < 2 ^ (d - 25)) as H3 by (apply Z.pow_pos_nonneg; lia).
      destruct HE as [-> | [-> Hc]].
      * left. split; [lia|]. split; [lia|].
        by replace (0 + (d - 24) - 0) with (d - 24) in Herr by lia.
      * right. split; [lia|]. split; [lia|].
        replace (0 + (d - 24) + 1 - 0) with (Z.succ (d - 24)) in Herr by lia.
        rewrite Z.pow_succ_r in Herr by lia.
        change (2 ^ 24) with 16777216 in *. change (2 ^ 23) with 8388608 in *.
        split; [nia|lia].
  - assert (Z.pos q = 24 - d) as Hq' by lia.
    assert (2 ^ (d - 1) * 2 ^ Z.pos q = 2 ^ 23) as H1.
    { rewrite <- Z.pow_add_r by lia. f_equal. lia. }
    assert (2 ^ d * 2 ^ Z.pos q = 2 ^ 24) as H2.
    { rewrite <- Z.pow_add_r by lia. f_equal. lia. }
    assert (0 < 2 ^ Z.pos q) as H3 by (apply Z.pow_pos_nonneg; lia).
    assert (2 ^ 23 <= Z.pos (Pos.iter xO p q) < 2 ^ 24) as Hnorm.
    { rewrite shl_align_value. nia. }
    exists (Pos.iter xO p q), (Z.max (d + 0 - 24) (3 - 128 - 24)).
    split; [|split; [done|]].
    + apply binary_round_aux_in_place; try done; try lia.
      simpl Zdigits2. rewrite (digits2_pos_unique _ 24); [lia|done].
    + left. split; [lia|]. split; [lia|].
      by rewrite shl_align_value, Hq'.
Qed.

(** The conversion is monotone: a smaller integer gives a float that is
    not larger, in the order on normal numbers. *)
Lemma of_uint32_mono (P n : Z) M E M' E' :
  1 <= P <= n -> n < U32.modulus ->
  F32.of_uint32 P = S754_finite false M E ->
  F32.of_uint32 n = S754_finite false M' E' ->
  E < E' \/ (E = E' /\ Z.pos M <= Z.pos M').
Proof.
  intros HP Hn HfP Hfn.
  destruct (decide (P = n)) as [->|Hne].
  { rewrite HfP in Hfn. injection Hfn as -> ->. right. lia. }
  destruct P as [|p|p]; [lia| |lia]. destruct n as [|q|q]; [lia| |lia].
  destruct (of_uint32_spec p ltac:(lia)) as (M1 & E1 & H1 & Hn1 & Hs1).
  destruct (of_uint32_spec q ltac:(lia)) as (M2 & E2 & H2 & Hn2 & Hs2).
  rewrite HfP in H1. injection H1 as <- <-.
  rewrite Hfn in H2. injection H2 as <- <-.
  pose proof (digits2_pos_mono p q ltac:(lia)) as Hdd.
  set (d := Z.pos (digits2_pos p)) in *.
  set (d' := Z.pos (digits2_pos q)) in *.
  change (2 ^ 23) with 8388608 in *. change (2 ^ 24) with 16777216 in *.
  destruct (decide (d = d')) as [Heq|Hlt].
  - rewrite <- Heq in Hs2. clearbody d d'. clear Hdd Heq d'.
    destruct Hs1 as [(Hd1 & -> & Hv1) | [(Hd1 & -> & Hv1) | (Hd1 & -> & -> & Hv1)]];
    destruct Hs2 as [(Hd2 & -> & Hv2) | [(Hd2 & -> & Hv2) | (Hd2 & -> & -> & Hv2)]];
      try lia.
    + right. split; [done|].
      assert (0 < 2 ^ (24 - d)) by (apply Z.pow_pos_nonneg; lia). nia.
    + right. split; [done|].
      assert (2 ^ (d - 24) = 2 * 2 ^ (d - 25)) as Hp1.
      { rewrite <- Z.pow_succ_r by lia. f_equal. lia. }
      assert (0 < 2 ^ (d - 25)) as Hp2 by (apply Z.pow_pos_nonneg; lia).
      rewrite Hp1 in *. nia.
    + exfalso.
      assert (2 ^ (d - 24) = 2 * 2 ^ (d - 25)) as Hp1.
      { rewrite <- Z.pow_succ_r by lia. f_equal. lia. }
      assert (2 ^ d = 16777216 * 2 ^ (d - 24)) as Hp3.
      { change 16777216 with (2 ^ 24).
        rewrite <- Z.pow_add_r by lia. f_equal. lia. }
      assert (0 < 2 ^ (d - 25)) as Hp2 by (apply Z.pow_pos_nonneg; lia).
      rewrite Hp3, Hp1 in *. nia.
  - clearbody d d'.
    destruct Hs1 as [(Hd1 & -> & Hv1) | [(Hd1 & -> & Hv1) | (Hd1 & -> & -> & Hv1)]];
    destruct Hs2 as [(Hd2 & -> & Hv2) | [(Hd2 & -> & Hv2) | (Hd2 & -> & -> & Hv2)]];
      lia.
Qed.

Lemma round_nearest_even_bounds m l :
  m <= round_nearest_even m l <= m + 1.
Proof. destruct l as [|[]]; simpl; try lia. destruct (Z.even m); lia. Qed.

(** Rounding a significand of 24 digits: the significand or its successor
    at the same exponent, or [2^23] at the next one. *)
Lemma binary_round_aux_24 (q e : Z) l :
  2 ^ 23 <= q < 2 ^ 24 -> -149 <= e <= 103 ->
  exists M E,
    binary_round_aux 24 128 false q e l = S754_finite false M E /\
    2 ^ 23 <= Z.pos M < 2 ^ 24 /\
    (E = e \/ E = e + 1 /\ Z.pos M = 2 ^ 23).
Proof.
  intros Hq He. pose proof (round_nearest_even_bounds q l) as Hr.
  change (2 ^ 23) with 8388608 in *. change (2 ^ 24) with 16777216 in *.
  assert (Zdigits2 q = 24) as Hdq.
  { destruct q as [|p|p]; [lia| |lia]. simpl.
    by apply digits2_pos_unique. }
  destruct (decide (round_nearest_even q l < 16777216)) as [Hlt|Hge].
  - destruct (round_nearest_even q l) as [|m|m] eqn:Hm; [lia| |lia].
    exists m, e. split; [|split; [lia|by left]].
    apply binary_round_aux_in_place; try done; lia.
  - assert (round_nearest_even q l = 16777216) as Hm by lia.
    exists 8388608%positive, (e + 1). split; [|split; [lia|by right]].
    unfold binary_round_aux.
    assert (shr_fexp 24 128 q e l = (shr_record_of_loc q l, e)) as ->.
    { unfold shr_fexp. apply shr_nonpos. unfold fexp, emin. lia. }
    rewrite shr_record_of_loc_m, loc_of_shr_record_of_loc, Hm.
    unfold shr_fexp. change (Zdigits2 16777216) with 25.
    replace (fexp 24 128 (25 + e) - e) with 1 by (unfold fexp, emin; lia).
    simpl. by rewrite (proj2 (Z.leb_le _ _)) by lia.
Qed.

(** Rounding a significand of 25 digits drops one bit first. *)
Lemma binary_round_aux_25 (q e : Z) l :
  2 ^ 24 <= q < 2 ^ 25 -> -149 <= e <= 102 ->
  exists M E,
    binary_round_aux 24 128 false q e l = S754_finite false M E /\
    2 ^ 23 <= Z.pos M < 2 ^ 24 /\
    (E = e + 1 \/ E = e + 2 /\ Z.pos M = 2 ^ 23).
Proof.
  intros Hq He.
  change (2 ^ 25) with 33554432 in *. change (2 ^ 24) with 16777216 in *.
  assert (Zdigits2 q = 25) as Hdq.
  { destruct q as [|p|p]; [lia| |lia]. simpl.
    by apply digits2_pos_unique. }
  set (mrs := shr_1 (shr_record_of_loc q l)).
  assert (shr_m mrs = q / 2) as Hm1.
  { unfold mrs. destruct l as [|[]]; simpl shr_record_of_loc;
      by rewrite shr_1_nonneg by lia. }
  assert (binary_round_aux 24 128 false q e l
          = binary_round_aux 24 128 false (q / 2) (e + 1)
              (loc_of_shr_record mrs)) as ->.
  { unfold binary_round_aux.
    assert (shr_fexp 24 128 q e l = (mrs, e + 1)) as ->.
    { unfold shr_fexp. rewrite Hdq.
      replace (fexp 24 128 (25 + e) - e) with 1 by (unfold fexp, emin; lia).
      done. }
    assert (shr_fexp 24 128 (q / 2) (e + 1) (loc_of_shr_record mrs)
            = (shr_record_of_loc (q / 2) (loc_of_shr_record mrs), e + 1)) as ->.
    { unfold shr_fexp. apply shr_nonpos.
      assert (Zdigits2 (q / 2) = 24) as ->.
      { assert (8388608 <= q / 2 < 16777216) as Hh
          by (split; [apply Z.div_le_lower_bound|apply Z.div_lt_upper_bound];
              lia).
        destruct (q / 2) as [|p|p]; [lia| |lia]. simpl.
        by apply digits2_pos_unique. }
      unfold fexp, emin. lia. }
    by rewrite shr_record_of_loc_m, loc_of_shr_record_of_loc, Hm1. }
  destruct (binary_round_aux_24 (q / 2) (e + 1) (loc_of_shr_record mrs))
    as (M & E & HM & Hnorm & HE).
  - change (2 ^ 23) with 8388608. change (2 ^ 24) with 16777216.
    split; [apply Z.div_le_lower_bound|apply Z.div_lt_upper_bound]; lia.
  - lia.
  - exists M, E. split; [done|]. split; [done|]. lia.
Qed.

(** The quotient of [4 * a] by [b] for normal numbers [a <= b]: a normal
    number that is at most [4.0], and [4.0] itself when [a = b]. *)
Lemma div_le_four (M M' : positive) (E E' : Z) :
  2 ^ 23 <= Z.pos M < 2 ^ 24 -> 2 ^ 23 <= Z.pos M' < 2 ^ 24 ->
  -23 <= E <= 9 -> -23 <= E' <= 9 ->
  E < E' \/ (E = E' /\ Z.pos M <= Z.pos M') ->
  exists Mq Eq,
    F32.div (S754_finite false M (E + 2)) (S754_finite false M' E')
      = S754_finite false Mq Eq /\
    (Eq < -21 \/ (Eq = -21 /\ Z.pos Mq = 2 ^ 23)) /\
    (E = E' -> M = M' -> Eq = -21).
Proof.
  intros HM HM' HE HE' Hle.
  unfold F32.div, SFdiv, SFdiv_core_binary. cbv zeta. simpl xorb.
  simpl Zdigits2.
  rewrite (digits2_pos_unique M 24), (digits2_pos_unique M' 24) by done.
  replace (Z.min (fexp F32.prec F32.emax (24 + (E + 2) - (24 + E')))
             (E + 2 - E')) with (E - E' - 22)
    by (unfold fexp, emin, F32.prec, F32.emax; lia).
  replace (E + 2 - E' - (E - E' - 22)) with 24 by lia. cbv iota.
  rewrite Z.shiftl_mul_pow2 by lia.
  pose proof (Z_div_mod (Z.pos M * 2 ^ 24) (Z.pos M') ltac:(lia)) as Hdm.
  destruct (Z.div_eucl (Z.pos M * 2 ^ 24) (Z.pos M')) as [q r].
  destruct Hdm as [Hdm Hr].
  change (2 ^ 23) with 8388608 in *. change (2 ^ 24) with 16777216 in *.
  change F32.prec with 24. change F32.emax with 128.
  assert (8388608 <= q < 33554432) as Hq by nia.
  destruct (decide (q < 16777216)) as [Hlt|Hge].
  - destruct (binary_round_aux_24 q (E - E' - 22)
                (new_location (Z.pos M') r)) as (Mq & Eq & -> & Hn & HEq).
    + change (2 ^ 23) with 8388608. change (2 ^ 24) with 16777216. lia.
    + lia.
    + exists Mq, Eq. split; [done|].
      change (2 ^ 23) with 8388608 in *. split; [lia|].
      intros -> [= ->]. nia.
  - destruct Hle as [Hlt | [-> Hle]].
    + destruct (binary_round_aux_25 q (E - E' - 22)
                  (new_location (Z.pos M') r)) as (Mq & Eq & -> & Hn & HEq).
      * change (2 ^ 24) with 16777216. change (2 ^ 25) with 33554432. lia.
      * lia.
      * exists Mq, Eq. split; [done|].
        change (2 ^ 23) with 8388608 in *. split; lia.
    + assert (q = 16777216 /\ r = 0) as [-> ->] by nia.
      exists 8388608%positive, (-21). split; [|split; [by right|done]].
      replace (E' - E' - 22) with (-22) by lia.
      assert (new_location (Z.pos M') 0 = loc_Exact) as ->
        by (unfold new_location; by destruct (Z.even _)).
      by vm_compute.
Qed.

(** X14: for every count [P <= n] and every problem size [1 <= n < 2^32]
    the estimate [4.f * P / n] computed in binary32 lies between [0] and
    [4], both included; so it is neither NaN nor infinite. *)
Theorem estimate_between_0_and_4 (P n : Z) :
  0 <= P <= n -> 1 <= n < U32.modulus ->
  F32.leb (F32.lit 0 0) (estimate P n) = true /\
  F32.leb (estimate P n) (F32.lit 4 0) = true.
Proof.
  intros HP Hn. unfold estimate.
  destruct (of_uint32_normal n Hn) as (M' & E' & Hfn & HM' & HE').
  rewrite Hfn. destruct (decide (P = 0)) as [->|HP0]; [done|].
  destruct (of_uint32_normal P ltac:(lia)) as (M & E & HfP & HM & HE).
  pose proof (of_uint32_mono P n M E M' E' ltac:(lia) ltac:(lia) HfP Hfn)
    as Hle.
  rewrite HfP, mul_four by (done || lia).
  destruct (div_le_four M M' E E' HM HM' HE HE' Hle)
    as (Mq & Eq & -> & HEq & _).
  split; [done|].
  change (F32.lit 4 0) with (S754_finite false 8388608 (-21)).
  unfold F32.leb, SFleb, SFcompare.
  destruct HEq as [Hlt | [-> Hm]].
  - by rewrite (proj2 (Z.compare_lt_iff _ _) Hlt).
  - injection Hm as ->. done.
Qed.

Lemma estimate_between_0_and_4_witness :
  F32.leb (F32.lit 0 0) (estimate 3 4) = true /\
  F32.leb (estimate 3 4) (F32.lit 4 0) = true.
Proof. apply (estimate_between_0_and_4 3 4); u32. Defined.

(** X15: the estimate is exact at both ends: when all [n] points are
    inside it is [4.0], when none is inside it is [0.0], for every problem
    size [1 <= n < 2^32], also where [n] itself is rounded by the
    conversion to [float]. *)
Theorem estimate_extremes (n : Z) :
  1 <= n < U32.modulus ->
  estimate n n = F32.lit 4 0 /\ estimate 0 n = F32.lit 0 0.
Proof.
  intros Hn. unfold estimate.
  destruct (of_uint32_normal n Hn) as (M & E & Hfn & HM & HE).
  rewrite Hfn. split; [|done].
  rewrite mul_four by (done || lia).
  destruct (div_le_four M M E E HM HM HE HE ltac:(right; lia))
    as (Mq & Eq & -> & HEq & Hsame).
  rewrite (Hsame eq_refl eq_refl) in HEq |- *.
  destruct HEq as [|[_ Hm]]; [lia|]. injection Hm as ->. done.
Qed.

Lemma estimate_extremes_witness :
  estimate 4294967295 4294967295 = F32.lit 4 0 /\
  estimate 0 4294967295 = F32.lit 0 0.
Proof. apply (estimate_extremes 4294967295); u32. Defined.

(** * A larger radius *)

(** The comparison of binary32 is transitive. *)
Lemma SFleb_trans (a b c : F32.float) :
  F32.leb a b = true -> F32.leb b c = true -> F32.leb a c = true.
Proof.
  unfold F32.leb, SFleb, SFcompare.
  destruct a as [[]|[]| |[] ma ea], b as [[]|[]| |[] mb eb],
           c as [[]|[]| |[] mc ec]; try done;
    change (Pos.compare_cont Eq ?p ?q) with (Pos.compare p q);
    destruct (Z.compare_spec ea eb), (Z.compare_spec eb ec),
             (Z.compare_spec ea ec); try done; try lia; subst;
    destruct (Pos.compare_spec ma mb), (Pos.compare_spec mb mc),
             (Pos.compare_spec ma mc); try done; try lia.
Qed.

(** X16: the classification is monotone in the radius: with [r1 <= r2]
    every point the classifier puts inside for [r1] it puts inside for
    [r2], and the number of points inside does not decrease. *)
Theorem radius_monotone (r1 r2 : F32.float) :
  F32.leb r1 r2 = true ->
  (forall pts idx p1 p2,
     processPoint pts r1 idx = Done p1 -> processPoint pts r2 idx = Done p2 ->
     inside p1 !! Z.to_nat idx = Some true ->
     inside p2 !! Z.to_nat idx = Some true) /\
  (forall xs ys,
     count_true (flags_of r1 xs ys) <= count_true (flags_of r2 xs ys)).
Proof.
  intros Hr. split.
  - intros pts idx p1 p2 H1 H2 Hin.
    destruct (x pts !! Z.to_nat idx) as [px|] eqn:Hx;
      [|unfold processPoint in H1; rewrite Hx in H1; discriminate].
    destruct (y pts !! Z.to_nat idx) as [py|] eqn:Hy;
      [|unfold processPoint in H1; rewrite Hx, Hy in H1; discriminate].
    rewrite (processPoint_flag _ _ _ _ _ _ Hx Hy H1) in Hin.
    rewrite (processPoint_flag _ _ _ _ _ _ Hx Hy H2).
    injection Hin as Hin. f_equal. by apply SFleb_trans with r1.
  - intros xs. unfold flags_of.
    induction xs as [|px xs IH]; intros [|py ys]; simpl; try done.
    rewrite !count_true_cons. specialize (IH ys).
    destruct (F32.leb (distance px py) r1) eqn:H1.
    + rewrite (SFleb_trans _ _ _ H1 Hr). lia.
    + destruct (F32.leb (distance px py) r2); lia.
Qed.

Lemma radius_monotone_witness :
  count_true (flags_of (F32.lit 1 0) [F32.lit 1 0; F32.lit 2 0]
                [F32.lit 0 0; F32.lit 0 0])
  <= count_true (flags_of (F32.lit 2 0) [F32.lit 1 0; F32.lit 2 0]
                   [F32.lit 0 0; F32.lit 0 0]).
Proof.
  apply (proj2 (radius_monotone (F32.lit 1 0) (F32.lit 2 0) eq_refl)).
Defined.
